(** * use-pyodide: the cross-context execution bridge

    A shallow embedding of the three source modules

      - [pyodide-worker.ts]      (the Remote Execution Endpoint, module [Worker]),
      - [pyodide-api.ts]         (the Bridge Client, module [Foreground]; in
                                  the source listing its text follows that of
                                  the worker),
      - [initializePyodide.ts]   (the Initialization Coordinator, module
                                  [Foreground]),

    together with the string operations they rely on (module [Text]).

    Module-level [let] variables of the TypeScript sources become record
    fields that are threaded through every function.  The engine (pyodide)
    and the browser are the environment: what they do is an argument of the
    function or an event of the step function, and every result below is
    quantified over it.  JavaScript runs one function at a time up to its
    next [await]; the functions below are these synchronous stretches, and a
    promise is an object whose state is read off the world.  Console output
    ([DEBUG && console.log(...)], [logElapsedTime]) is left out, and of
    config.ts, which is not among the sources, only the calls made to it are
    recorded.  Arguments of a call through the Comlink proxy are cloned by
    [postMessage]: a sink passed as an argument is replaced by a proxy, a
    sink inside an options object makes the call fail. *)

From stdpp Require Import base list strings.
From Stdlib Require Import Ascii.
From Stdlib Require String.

Open Scope list_scope.

(** ** Strings *)

Module Text.

Definition newline : ascii := "010"%char.
Definition dquote : ascii := "034"%char.

(** The literal [File "<exec>"] of [runPython]. *)
Definition exec_marker : string :=
  "File " +:+ String dquote ("<exec>" +:+ String dquote "").

(** [s.startsWith(pat)], the auxiliary of [includes]. *)
Fixpoint starts_with (pat s : string) : bool :=
  match pat, s with
  | EmptyString, _ => true
  | String a pat', String b s' => Ascii.eqb a b && starts_with pat' s'
  | String _ _, EmptyString => false
  end.

(** [s.includes(pat)]: [pat] occurs somewhere in [s]. *)
Fixpoint includes (s pat : string) : bool :=
  starts_with pat s ||
  match s with
  | EmptyString => false
  | String _ s' => includes s' pat
  end.

(** [s.split("\n")]; the result is never empty: ["".split("\n")] is [[""]]. *)
Fixpoint split_lines (s : string) : list string :=
  match s with
  | EmptyString => [""]
  | String c s' =>
      if Ascii.eqb c newline then "" :: split_lines s'
      else match split_lines s' with
           | l :: ls => String c l :: ls
           | [] => [String c ""]
           end
  end.

(** [ls.join("\n")]; [[].join("\n")] is [""]. *)
Fixpoint join_lines (ls : list string) : string :=
  match ls with
  | [] => ""
  | [l] => l
  | l :: ls' => l +:+ String newline (join_lines ls')
  end.

(** A string without a line break. *)
Fixpoint one_line (s : string) : bool :=
  match s with
  | EmptyString => true
  | String c s' => negb (Ascii.eqb c newline) && one_line s'
  end.

End Text.

(** ** pyodide-worker.ts: the Remote Execution Endpoint *)

Module Worker.

(** A callback [(text: string) => void], known by its identity. *)
Definition Sink := nat.

(** Values that cross the context boundary.  Numbers are the integral
    ones; objects are opaque references. *)
Inductive Value :=
| VUndefined
| VNull
| VBool (b : bool)
| VNumber (n : Z)
| VString (s : string)
| VObject (ref : nat).

(** What a [throw] carries: an instance of [Error] (or of a subclass, whose
    [name] tells which), or any other value. *)
Inductive Thrown :=
| ErrorObject (name message : string)
| Raised (v : Value).

(** Outcome of a synchronous call. *)
Inductive Result (A : Type) :=
| Ok (a : A)
| Throw (e : Thrown).
Arguments Ok {A} a.
Arguments Throw {A} e.

(** State of a promise. *)
Inductive PromiseState (A : Type) :=
| Pending
| Fulfilled (a : A)
| Rejected (e : Thrown).
Arguments Pending {A}.
Arguments Fulfilled {A} a.
Arguments Rejected {A} e.

(** Outcome of a call of an [async] function, looked at in the state in
    which it was made: it returned, it threw, or it is suspended at an
    [await] on a promise that is still pending. *)
Inductive Completion (A : Type) :=
| Returns (a : A)
| Throws (e : Thrown)
| Awaiting.
Arguments Returns {A} a.
Arguments Throws {A} e.
Arguments Awaiting {A}.

(** [options?: { stdout?, stderr? }] *)
Record IoOptions := { stdout : option Sink; stderr : option Sink }.

Definition Globals := list (string * Value).

Inductive Stream := Stdout | Stderr.

(** What the engine does with one [runPythonAsync(code, options)]: the
    chunks it writes to its output streams, then the value of the last
    expression or the error it raises. *)
Record Evaluation := {
  written : list (Stream * string);
  outcome : Result Value
}.

(** The module state of the worker.  [_pyodideReady] holds [null] or the
    promise of [_loadPyodide], with its current state.  The last two fields
    are bookkeeping: [loads] lists the invocations of [_loadPyodide] (each
    one starts [loadPyodide], newest first), [calls] the invocations of
    sinks (oldest first). *)
Record State := {
  _pyodideReady : option (PromiseState unit);
  _output : option Sink;
  loads : list (list string * option IoOptions);
  calls : list (Sink * string)
}.

Definition initial : State :=
  {| _pyodideReady := None; _output := None; loads := []; calls := [] |}.

(** [cb(msg)] under [if (cb)]. *)
Definition call (cb : option Sink) (msg : string) (st : State) : State :=
  match cb with
  | Some f =>
      {| _pyodideReady := _pyodideReady st; _output := _output st;
         loads := loads st; calls := calls st ++ [(f, msg)] |}
  | None => st
  end.

(** The [stdout] and [stderr] handlers given to [loadPyodide]; [options] is
    the parameter of [_loadPyodide] they close over, [_output] is read when
    the chunk arrives. *)
Definition stdout_handler (options : option IoOptions) (msg : string)
    (st : State) : State :=
  let st := call (options ≫= stdout) msg st in
  call (_output st) msg st.

Definition stderr_handler (options : option IoOptions) (msg : string)
    (st : State) : State :=
  let st := call (options ≫= stderr) msg st in
  call (_output st) msg st.

(** The engine writes a chunk: the handler of the stream runs.  Without an
    engine there is nothing that writes. *)
Definition write (s : Stream) (msg : string) (st : State) : State :=
  match loads st with
  | [] => st
  | (_, options) :: _ =>
      match s with
      | Stdout => stdout_handler options msg st
      | Stderr => stderr_handler options msg st
      end
  end.

Definition writes (chunks : list (Stream * string)) (st : State) : State :=
  fold_left (fun st c => write c.1 c.2 st) chunks st.

(** [_loadPyodide], up to its first [await]: [packages] defaults to [[]],
    [loadPyodide] is started with the two handlers.  The promise it returns
    is pending. *)
Definition _loadPyodide (packages : option (list string))
    (options : option IoOptions) (st : State) : State * PromiseState unit :=
  ({| _pyodideReady := _pyodideReady st; _output := _output st;
      loads := (default [] packages, options) :: loads st;
      calls := calls st |}, Pending).

Definition already_initialized : Thrown :=
  ErrorObject "Error" "pyodide was already initialized".

(** [initialize]: [Ok tt] stands for returning [_pyodideReady]. *)
Definition initialize (packages : option (list string))
    (options : option IoOptions) (st : State) : State * Result unit :=
  match _pyodideReady st with
  | Some _ => (st, Throw already_initialized)
  | None =>
      let '(st, p) := _loadPyodide packages options st in
      ({| _pyodideReady := Some p; _output := _output st;
          loads := loads st; calls := calls st |}, Ok tt)
  end.

(** The promise of [_loadPyodide] settles (engine loaded and packages
    installed, or one of the steps failed).  A promise settles once. *)
Definition settle_load (r : Result unit) (st : State) : State :=
  match _pyodideReady st with
  | Some Pending =>
      {| _pyodideReady :=
           Some match r with Ok u => Fulfilled u | Throw e => Rejected e end;
         _output := _output st; loads := loads st; calls := calls st |}
  | _ => st
  end.

(** The [catch (err)] block of [runPython]. *)
Definition on_error (err : Thrown) (st : State) : State * Completion Value :=
  match err with
  | ErrorObject _ message =>
      let lines := Text.split_lines message in
      let cleanedLines :=
        List.filter (fun line => negb (Text.includes line Text.exec_marker)) lines in
      let errorMessage := Text.join_lines cleanedLines in
      (call (_output st) errorMessage st, Throws (ErrorObject "Error" errorMessage))
  | Raised _ => (st, Throws err)
  end.

(** Reading a property of [self.pyodide] while it is [undefined]; the text
    of the message is the runtime's. *)
Definition undefined_pyodide : Thrown :=
  ErrorObject "TypeError" "Cannot read properties of undefined".

(** [runPython].  [await _pyodideReady] goes on at once when the variable is
    [null]; [self.pyodide] is then [undefined], and [toPy] is used outside
    the [try], [runPythonAsync] inside it.  With an engine, [toPy] of a
    JSON-compatible record does not throw, and [ev] is what
    [runPythonAsync] does. *)
Definition runPython (code : string) (globals : option Globals)
    (ev : Evaluation) (st : State) : State * Completion Value :=
  match _pyodideReady st with
  | Some Pending => (st, Awaiting)
  | Some (Rejected e) => (st, Throws e)
  | Some (Fulfilled _) =>
      let st := writes (written ev) st in
      match outcome ev with
      | Ok v => (st, Returns v)
      | Throw err => on_error err st
      end
  | None =>
      match globals with
      | Some _ => (st, Throws undefined_pyodide)
      | None => on_error undefined_pyodide st
      end
  end.

(** [setOutput] *)
Definition setOutput (callback : option Sink) (st : State) : State :=
  {| _pyodideReady := _pyodideReady st; _output := callback;
     loads := loads st; calls := calls st |}.

(** What happens in the worker on its own account. *)
Inductive Happening :=
| LoadSettles (r : Result unit)
| Writes (s : Stream) (msg : string).

Definition happen (h : Happening) (st : State) : State :=
  match h with
  | LoadSettles r => settle_load r st
  | Writes s msg => write s msg st
  end.

(** Everything that can happen to the worker: the three exposed functions
    are called, or the engine acts. *)
Inductive Event :=
| Initialize (packages : option (list string)) (options : option IoOptions)
| RunPython (code : string) (globals : option Globals) (ev : Evaluation)
| SetOutput (callback : option Sink)
| Happens (h : Happening).

Definition step (e : Event) (st : State) : State :=
  match e with
  | Initialize packages options => (initialize packages options st).1
  | RunPython code globals ev => (runPython code globals ev st).1
  | SetOutput callback => setOutput callback st
  | Happens h => happen h st
  end.

Definition run (evs : list Event) (st : State) : State :=
  fold_left (fun st e => step e st) evs st.

(** The sinks that the handlers of the engine close over: those given to
    the [initialize] that started it. *)
Definition init_sinks (st : State) : list Sink :=
  match loads st with
  | (_, Some o) :: _ => option_list (stdout o) ++ option_list (stderr o)
  | _ => []
  end.

(** An event other than a call of [setOutput]. *)
Definition keeps_sink (e : Event) : bool :=
  match e with
  | SetOutput _ => false
  | _ => true
  end.

(** A delivery that the slot value [cb] or the sinks [sinks] account for. *)
Definition accounted (cb : option Sink) (sinks : list Sink)
    (d : Sink * string) : Prop :=
  Some d.1 = cb \/ d.1 ∈ sinks.

(** [loadPyodide] was started by the one [initialize] that found
    [_pyodideReady] to be [null], and by nothing else. *)
Definition loaded_once (st : State) : Prop :=
  match _pyodideReady st with
  | None => loads st = []
  | Some _ => length (loads st) = 1
  end.

(** The sink that [options] names for a stream. *)
Definition sink_of (options : option IoOptions) (s : Stream) : option Sink :=
  match s with
  | Stdout => options ≫= stdout
  | Stderr => options ≫= stderr
  end.

(** The sink invocations one chunk is expected to bring about: the sink of
    [options] for its stream, then the sink [out]. *)
Definition chunk_deliveries (options : option IoOptions) (out : option Sink)
    (c : Stream * string) : list (Sink * string) :=
  option_list ((fun f => (f, c.2)) <$> sink_of options c.1) ++
  option_list ((fun f => (f, c.2)) <$> out).

End Worker.

(** ** pyodide-api.ts and initializePyodide.ts: the foreground context *)

Module Foreground.

Import Worker.

(** The object [{ runPython, runPythonJson, setOutput, terminate }] built by
    the invocation [id] of [initializeWorker]. *)
Inductive Bridge := Facade (id : nat).

(** Where an invocation of [initializeWorker] stands: the [if (!_worker)]
    block was skipped, or it is at [await _runner.initialize(...)] of the
    worker [w], or that call was rejected without reaching the worker or
    threw there. *)
Inductive Awaited :=
| Skipped
| Remote (w : nat)
| Refused (e : Thrown).

(** Promise objects.  [id] is the identity of the object; an [async]
    function makes a new promise at each call, and [AsyncReturn id p] is the
    promise of a call whose body ended with [return p] (or
    [return await p], which settles the same way). *)
Inductive Promise :=
| InitializeWorkerCall (id : nat) (k : Awaited)
| AsyncReturn (id : nat) (p : Promise).

(** A worker made by [new Worker(...)]: its module state, and whether
    [terminate()] was called on it. *)
Record WorkerCell := { terminated : bool; endpoint : Worker.State }.

(** The module variables of the foreground: [pyodide]
    (initializePyodide.ts), [_worker] and [_runner] (pyodide-api.ts; a worker
    and the proxy of [Comlink.wrap] are known by the index of the worker).
    [workers] are the workers made so far, [fresh] the next object identity,
    [worker_inits] the invocations of [initializeWorker] with their arguments
    and [setDebug_calls] the arguments of the calls of [setDebug] (both
    newest first). *)
Record World := {
  pyodide : option Promise;
  setDebug_calls : list bool;
  _worker : option nat;
  _runner : option nat;
  workers : list WorkerCell;
  fresh : nat;
  worker_inits : list (option (list string) * option IoOptions)
}.

Definition initial : World :=
  {| pyodide := None; setDebug_calls := []; _worker := None; _runner := None;
     workers := []; fresh := 0; worker_inits := [] |}.

Definition set_pyodide (p : option Promise) (W : World) : World :=
  {| pyodide := p; setDebug_calls := setDebug_calls W; _worker := _worker W;
     _runner := _runner W; workers := workers W; fresh := fresh W;
     worker_inits := worker_inits W |}.

Definition set_workers (ws : list WorkerCell) (W : World) : World :=
  {| pyodide := pyodide W; setDebug_calls := setDebug_calls W; _worker := _worker W;
     _runner := _runner W; workers := ws; fresh := fresh W;
     worker_inits := worker_inits W |}.

Definition set_channel (w r : option nat) (W : World) : World :=
  {| pyodide := pyodide W; setDebug_calls := setDebug_calls W; _worker := w; _runner := r;
     workers := workers W; fresh := fresh W;
     worker_inits := worker_inits W |}.

(** A new object is made. *)
Definition allocate (W : World) : World :=
  {| pyodide := pyodide W; setDebug_calls := setDebug_calls W; _worker := _worker W;
     _runner := _runner W; workers := workers W; fresh := S (fresh W);
     worker_inits := worker_inits W |}.

Definition log_worker_init (packages : option (list string))
    (options : option IoOptions) (W : World) : World :=
  {| pyodide := pyodide W; setDebug_calls := setDebug_calls W; _worker := _worker W;
     _runner := _runner W; workers := workers W; fresh := fresh W;
     worker_inits := (packages, options) :: worker_inits W |}.

(** *** pyodide-api.ts *)

(** A call through [_runner]: the exposed function [f] runs in the worker
    [r].  Calls are delivered in the order they are made, so a call is
    taken to run when it is made. *)
Definition remote {A : Type} (r : nat) (f : Worker.State -> Worker.State * A)
    (W : World) : option (World * A) :=
  c ← workers W !! r;
  let '(st, a) := f (endpoint c) in
  Some (set_workers
          (<[r := {| terminated := terminated c; endpoint := st |}]> (workers W)) W,
        a).

(** [if (x)] for an optional function or object. *)
Definition given {A : Type} (x : option A) : bool :=
  match x with
  | Some _ => true
  | None => false
  end.

(** What [postMessage] does with the arguments of a call through [_runner]:
    it clones them, and a function cannot be cloned.  Comlink replaces by a
    proxy only an argument that is itself the result of [Comlink.proxy]; a
    sink inside the [options] object is sent as the function it is. *)
Definition cloneable (options : option IoOptions) : bool :=
  match options with
  | Some o => negb (given (stdout o) || given (stderr o))
  | None => true
  end.

(** The [DOMException] of a failed clone; the text of the message is the
    runtime's. *)
Definition data_clone_error : Thrown :=
  ErrorObject "DataCloneError" "The object could not be cloned.".

(** [initializeWorker].  With a sink in [proxiedOptions] the call
    [_runner.initialize(packages, proxiedOptions)] is rejected when it is
    posted: the worker is there, with [_worker] and [_runner] set, and its
    [initialize] never runs. *)
Definition initializeWorker (packages : option (list string))
    (options : option IoOptions) (W : World) : World * Promise :=
  let id := fresh W in
  let W := log_worker_init packages options (allocate W) in
  match _worker W with
  | None =>
      let w := length (workers W) in
      let proxiedOptions :=
        match options with
        | Some o => Some {| stdout := stdout o; stderr := stderr o |}
        | None => None
        end in
      let '(st, k) :=
        if cloneable proxiedOptions then
          let '(st, r) := Worker.initialize packages proxiedOptions Worker.initial in
          (st, match r with Ok _ => Remote w | Throw e => Refused e end)
        else (Worker.initial, Refused data_clone_error) in
      let W := set_channel (Some w) (Some w) W in
      let W := set_workers (workers W ++ [{| terminated := false; endpoint := st |}]) W in
      (W, InitializeWorkerCall id k)
  | Some _ => (W, InitializeWorkerCall id Skipped)
  end.

Definition not_loaded : Thrown := ErrorObject "Error" "pyodide isn't loaded yet".

(** [runPython]; a proxy without a worker behind it never answers. *)
Definition runPython (code : string) (globals : option Globals)
    (ev : Evaluation) (W : World) : World * Completion Value :=
  match _worker W, _runner W with
  | Some _, Some r =>
      match remote r (Worker.runPython code globals ev) W with
      | Some (W, value) => (W, value)
      | None => (W, Awaiting)
      end
  | _, _ => (W, Throws not_loaded)
  end.

(** [if (result)] *)
Definition truthy (v : Value) : bool :=
  match v with
  | VUndefined | VNull => false
  | VBool b => b
  | VNumber n => negb (n =? 0)%Z
  | VString s => negb (String.eqb s "")
  | VObject _ => true
  end.

(** [setOutput]; the promise of the remote call is dropped. *)
Definition setOutput (callback : option Sink) (W : World) : World * Result unit :=
  match _runner W with
  | None => (W, Throw not_loaded)
  | Some r =>
      match remote r (fun st => (Worker.setOutput callback st, tt)) W with
      | Some (W, _) => (W, Ok tt)
      | None => (W, Ok tt)
      end
  end.

(** [terminate] *)
Definition terminate (W : World) : World :=
  let ws :=
    match _worker W with
    | Some w =>
        alter (fun c => {| terminated := true; endpoint := endpoint c |}) w (workers W)
    | None => workers W
    end in
  set_channel None None (set_workers ws W).

(** Something happens in the worker [w], unless it was terminated. *)
Definition in_worker (w : nat) (h : Happening) (W : World) : World :=
  match workers W !! w with
  | Some c =>
      if terminated c then W
      else set_workers
             (<[w := {| terminated := false; endpoint := Worker.happen h (endpoint c) |}]>
                (workers W)) W
  | None => W
  end.

(** *** initializePyodide.ts *)

(** The parameter of [initializePyodide]. *)
Record InitOptions := {
  debug : option bool;
  packages : option (list string);
  on_stdout : option Sink;
  on_stderr : option Sink
}.

(** [setDebug(debug)]: a call into config.ts, which is not among the
    sources.  Nothing is assumed about what it does there: the call is
    recorded with its argument.  What the sources do with config.ts is read
    its flag [DEBUG] before they log, and logging is left out. *)
Definition setDebug (debug : bool) (W : World) : World :=
  {| pyodide := pyodide W; setDebug_calls := debug :: setDebug_calls W;
     _worker := _worker W; _runner := _runner W; workers := workers W;
     fresh := fresh W; worker_inits := worker_inits W |}.

(** [_initializePyodide] *)
Definition _initializePyodide (packages : option (list string))
    (options : option IoOptions) (W : World) : World * Promise :=
  let id := fresh W in
  let W := allocate W in
  let '(W, p) := initializeWorker packages options W in
  let W := set_pyodide (Some p) W in
  (W, AsyncReturn id p).

(** [initializePyodide]; [return pyodide] reads the variable, which holds
    the promise just stored or the one found. *)
Definition initializePyodide (options : option InitOptions) (W : World)
    : World * Promise :=
  let id := fresh W in
  let W := allocate W in
  let W := setDebug (default false (options ≫= debug)) W in
  match pyodide W with
  | None =>
      let stdout := options ≫= on_stdout in
      let stderr := options ≫= on_stderr in
      let workerOptions :=
        if given stdout || given stderr
        then Some {| stdout := stdout; stderr := stderr |} else None in
      let '(W, p) := _initializePyodide (options ≫= packages) workerOptions W in
      let W := set_pyodide (Some p) W in
      (W, AsyncReturn id p)
  | Some p => (W, AsyncReturn id p)
  end.

(** [getPyodide]; its [options] reach [initializePyodide] as they are, so
    [debug] and [packages] are [undefined] there. *)
Definition getPyodide (options : option IoOptions) (W : World)
    : World * Promise :=
  let id := fresh W in
  let W := allocate W in
  match pyodide W with
  | Some p => (W, AsyncReturn id p)
  | None =>
      let o := match options with
               | Some o => Some {| debug := None; packages := None;
                                   on_stdout := stdout o; on_stderr := stderr o |}
               | None => None
               end in
      let '(W, p) := initializePyodide o W in
      (W, AsyncReturn id p)
  end.

(** The state of a promise in a world.  The promise of
    [_runner.initialize(...)] follows [_pyodideReady] of its worker. *)
Fixpoint settle (W : World) (p : Promise) : PromiseState Bridge :=
  match p with
  | InitializeWorkerCall id Skipped => Fulfilled (Facade id)
  | InitializeWorkerCall id (Refused e) => Rejected e
  | InitializeWorkerCall id (Remote w) =>
      match workers W !! w with
      | Some c =>
          match _pyodideReady (endpoint c) with
          | Some (Fulfilled _) => Fulfilled (Facade id)
          | Some (Rejected e) => Rejected e
          | _ => Pending
          end
      | None => Pending
      end
  | AsyncReturn _ q => settle W q
  end.

Section Operations.

(** [JSON.parse], applied to what [runPython] returned. *)
Variable JSON_parse : Value -> Result Value.

(** [runPythonJson] *)
Definition runPythonJson (code : string) (globals : option Globals)
    (ev : Evaluation) (W : World) : World * Completion Value :=
  match runPython code globals ev W with
  | (W, Returns result) =>
      if truthy result then
        match JSON_parse result with
        | Ok json => (W, Returns json)
        | Throw e => (W, Throws e)
        end
      else (W, Returns VNull)
  | (W, Throws e) => (W, Throws e)
  | (W, Awaiting) => (W, Awaiting)
  end.

(** What the application and the workers can do, one at a time. *)
Inductive Op :=
| InitializePyodide (options : option InitOptions)
| GetPyodide (options : option IoOptions)
| InitializeWorker (packages : option (list string)) (options : option IoOptions)
| RunPython (code : string) (globals : option Globals) (ev : Evaluation)
| RunPythonJson (code : string) (globals : option Globals) (ev : Evaluation)
| SetOutput (callback : option Sink)
| Terminate
| InWorker (w : nat) (h : Happening).

Inductive Ret :=
| Promised (p : Promise)
| Completed (c : Completion Value)
| Finished (r : Result unit).

Definition exec (op : Op) (W : World) : World * Ret :=
  match op with
  | InitializePyodide o => let '(W, p) := initializePyodide o W in (W, Promised p)
  | GetPyodide o => let '(W, p) := getPyodide o W in (W, Promised p)
  | InitializeWorker pk o => let '(W, p) := initializeWorker pk o W in (W, Promised p)
  | RunPython code g ev => let '(W, c) := runPython code g ev W in (W, Completed c)
  | RunPythonJson code g ev => let '(W, c) := runPythonJson code g ev W in (W, Completed c)
  | SetOutput cb => let '(W, r) := setOutput cb W in (W, Finished r)
  | Terminate => (terminate W, Finished (Ok tt))
  | InWorker w h => (in_worker w h W, Finished (Ok tt))
  end.

(** A run: the final world and what each operation gave, in order. *)
Fixpoint run (ops : list Op) (W : World) : World * list (Op * Ret) :=
  match ops with
  | [] => (W, [])
  | op :: ops =>
      let '(W, r) := exec op W in
      let '(W, tr) := run ops W in
      (W, (op, r) :: tr)
  end.

(** A call of the Coordinator's initialize operation. *)
Definition coordinator_call (op : Op) : bool :=
  match op with
  | InitializePyodide _ | GetPyodide _ => true
  | _ => false
  end.

(** [initializeWorker] used directly, not through the Coordinator. *)
Definition direct_init (op : Op) : bool :=
  match op with
  | InitializeWorker _ _ => true
  | _ => false
  end.

(** A call of the client's [setOutput]. *)
Definition sets_sink (op : Op) : bool :=
  match op with
  | SetOutput _ => true
  | _ => false
  end.

(** The promises handed to the callers of the Coordinator, in call order. *)
Fixpoint handed_out (tr : list (Op * Ret)) : list Promise :=
  match tr with
  | [] => []
  | (op, Promised p) :: tr =>
      if coordinator_call op then p :: handed_out tr else handed_out tr
  | _ :: tr => handed_out tr
  end.

(** Nothing has been initialized: the state in which the first call of
    the Coordinator finds the foreground when [initializeWorker] is not
    used directly. *)
Definition untouched (W : World) : Prop :=
  pyodide W = None /\ worker_inits W = [] /\ workers W = [] /\
  _worker W = None /\ _runner W = None.

(** A later world: the workers are still there, and a [_pyodideReady]
    that was settled is as it was. *)
Definition later (W W' : World) : Prop :=
  forall w c, workers W !! w = Some c ->
    exists c', workers W' !! w = Some c' /\
      (_pyodideReady (endpoint c) <> Some Pending ->
       _pyodideReady (endpoint c) <> None ->
       _pyodideReady (endpoint c') = _pyodideReady (endpoint c)).

(** Two worlds that differ at most in what is inside their workers. *)
Definition same_but_workers (W W' : World) : Prop :=
  pyodide W' = pyodide W /\ worker_inits W' = worker_inits W /\
  setDebug_calls W' = setDebug_calls W /\ _worker W' = _worker W /\
  _runner W' = _runner W /\
  fresh W' = fresh W /\ length (workers W') = length (workers W).


(** How a worker changes from a world to a later one: not at all once it
    was terminated; its engine and the handlers of the engine stay;
    [_pyodideReady] stays [null] or stays set; every sink invocation it makes
    is added to the ones made.  In a stretch without [setOutput] ([quiet])
    the slot [_output] keeps its value and every new invocation is one of
    the sink in the slot. *)
Definition evolves (quiet : bool) (c c' : WorkerCell) : Prop :=
  (terminated c = true -> c' = c) /\
  loads (endpoint c') = loads (endpoint c) /\
  (_pyodideReady (endpoint c') = None <-> _pyodideReady (endpoint c) = None) /\
  (quiet = true -> _output (endpoint c') = _output (endpoint c)) /\
  exists ds, calls (endpoint c') = calls (endpoint c) ++ ds /\
    (quiet = true -> Forall (fun d => Some d.1 = _output (endpoint c)) ds).

(** The Coordinator has recorded the promise [p], and one initialization
    and one worker have been started in all. *)
Definition recorded (p : Promise) (W : World) : Prop :=
  pyodide W = Some p /\ length (worker_inits W) = 1 /\ length (workers W) = 1.

(** Every initialization goes through the Coordinator. *)
Definition coordinated (ops : list Op) : bool :=
  forallb (fun op => negb (direct_init op)) ops.

(** The client's variables fit its workers: [_worker] and [_runner] are set
    together, to a worker that was made and not terminated; every other
    worker was terminated; and each worker has started the engine in its
    one [initialize], if that call reached it, and then without sinks. *)
Definition well_formed (W : World) : Prop :=
  _worker W = _runner W /\
  (forall w, _worker W = Some w ->
     exists c, workers W !! w = Some c /\ terminated c = false) /\
  (forall w c, workers W !! w = Some c -> _worker W <> Some w ->
     terminated c = true) /\
  (forall w c, workers W !! w = Some c ->
     loaded_once (endpoint c) /\ init_sinks (endpoint c) = []).

End Operations.

End Foreground.

(** * Properties *)

(** ** The string operations do what their JavaScript names say *)

Section TextFacts.

Import Text.

Lemma starts_with_prefix (pat s : string) :
  starts_with pat s = true <-> exists t, s = pat +:+ t.
Proof.
  revert s. induction pat as [|a pat IH]; intros s; simpl.
  - split; [intros _; by exists s | done].
  - destruct s as [|b s]; simpl.
    + split; [done | intros [t Ht]; discriminate].
    + rewrite andb_true_iff, Ascii.eqb_eq, IH. split.
      * intros [-> [t ->]]. by exists t.
      * intros [t Ht]. injection Ht as -> ->. split; [done | by exists t].
Qed.

(** [includes] is the substring test. *)
Lemma includes_substring (s pat : string) :
  includes s pat = true <-> exists a b, s = a +:+ pat +:+ b.
Proof.
  induction s as [|c s IH].
  - simpl. rewrite orb_false_r, starts_with_prefix. split.
    + intros [t Ht]. by exists "", t.
    + intros [a [b Hab]]. destruct a; [by exists b | discriminate].
  - cbn [includes]. rewrite orb_true_iff, starts_with_prefix, IH. split.
    + intros [[t Ht] | [a [b Hab]]].
      * by exists "", t.
      * exists (String c a), b. simpl. by rewrite Hab.
    + intros [a [b Hab]]. destruct a as [|c' a]; simpl in Hab.
      * left. by exists b.
      * right. injection Hab as _ ->. by exists a, b.
Qed.

Lemma split_lines_nonempty (s : string) : split_lines s <> [].
Proof.
  destruct s as [|c s]; simpl; [done |].
  destruct (Ascii.eqb c newline); [done |].
  by destruct (split_lines s).
Qed.

Lemma split_lines_one_line (s : string) :
  Forall (fun l => one_line l = true) (split_lines s).
Proof.
  induction s as [|c s IH]; simpl.
  - by constructor.
  - destruct (Ascii.eqb c newline) eqn:Hc.
    + by constructor.
    + destruct (split_lines s) as [|l ls].
      * constructor; [simpl; by rewrite Hc | done].
      * inversion IH; subst. constructor; [simpl; by rewrite Hc | done].
Qed.

Lemma join_lines_cons_char (c : ascii) (l : string) (ls : list string) :
  join_lines (String c l :: ls) = String c (join_lines (l :: ls)).
Proof. by destruct ls. Qed.

(** Joining the lines of a string gives the string back. *)
Lemma join_split_lines (s : string) : join_lines (split_lines s) = s.
Proof.
  induction s as [|c s IH]; simpl; [done |].
  destruct (Ascii.eqb c newline) eqn:Hc.
  - apply Ascii.eqb_eq in Hc as ->.
    pose proof (split_lines_nonempty s) as Hne.
    destruct (split_lines s) as [|l ls]; [done |].
    by rewrite <- IH.
  - pose proof (split_lines_nonempty s) as Hne.
    destruct (split_lines s) as [|l ls]; [done |].
    by rewrite join_lines_cons_char, IH.
Qed.

Lemma split_lines_single (l : string) :
  one_line l = true -> split_lines l = [l].
Proof.
  induction l as [|c l IH]; simpl; [done |].
  rewrite andb_true_iff, negb_true_iff. intros [-> Hl].
  by rewrite (IH Hl).
Qed.

Lemma split_lines_app (l rest : string) :
  one_line l = true ->
  split_lines (l +:+ String newline rest) = l :: split_lines rest.
Proof.
  induction l as [|c l IH]; simpl.
  - done.
  - rewrite andb_true_iff, negb_true_iff. intros [-> Hl].
    by rewrite (IH Hl).
Qed.

(** Splitting the join of line-break-free strings gives them back. *)
Lemma split_join_lines (ls : list string) :
  ls <> [] -> Forall (fun l => one_line l = true) ls ->
  split_lines (join_lines ls) = ls.
Proof.
  induction ls as [|l ls IH]; [done |].
  intros _ Hall. inversion Hall as [|? ? Hl Hls]; subst.
  destruct ls as [|l' ls].
  - simpl. by apply split_lines_single.
  - change (join_lines (l :: l' :: ls))
      with (l +:+ String newline (join_lines (l' :: ls))).
    rewrite split_lines_app by done.
    by rewrite IH.
Qed.

End TextFacts.

(** ** The Remote Execution Endpoint *)

Section WorkerFacts.

Import Text Worker.

Lemma calls_call (cb : option Sink) (msg : string) (st : State) :
  calls (call cb msg st) =
  calls st ++ match cb with Some f => [(f, msg)] | None => [] end.
Proof. destruct cb; simpl; [done | by rewrite app_nil_r]. Qed.

Lemma call_frame (cb : option Sink) (msg : string) (st : State) :
  _pyodideReady (call cb msg st) = _pyodideReady st /\
  _output (call cb msg st) = _output st /\
  loads (call cb msg st) = loads st.
Proof. by destruct cb. Qed.

Lemma write_frame (s : Stream) (msg : string) (st : State) :
  _pyodideReady (write s msg st) = _pyodideReady st /\
  _output (write s msg st) = _output st /\
  loads (write s msg st) = loads st.
Proof.
  unfold write. destruct (loads st) as [|[pk o] l] eqn:Hl; [by rewrite Hl |].
  destruct s; unfold stdout_handler, stderr_handler;
    [destruct (o ≫= stdout) | destruct (o ≫= stderr)];
    destruct (_output st) eqn:Ho; simpl; rewrite ?Ho; simpl; by rewrite ?Ho.
Qed.

Lemma writes_frame (chunks : list (Stream * string)) (st : State) :
  _pyodideReady (writes chunks st) = _pyodideReady st /\
  _output (writes chunks st) = _output st /\
  loads (writes chunks st) = loads st.
Proof.
  revert st. induction chunks as [|[s msg] chunks IH]; intros st; [done |].
  simpl. destruct (IH (write s msg st)) as (-> & -> & ->).
  apply write_frame.
Qed.

(** C4: when the evaluation of [runPython] raises an [Error] with message
    [message], the caller gets an [Error] whose message is made of the lines
    of [message] that do not contain [File "<exec>"], in their order, joined
    by line breaks: no line of it contains the marker as a substring, and its
    lines are the kept ones.  Before the throw, the sink registered in [_output], if there
    is one, is called once with that cleaned message, after all the chunks
    of the evaluation. *)
Theorem runPython_error_cleaned_and_forwarded
    (code : string) (globals : option Globals) (ev : Evaluation) (st : State)
    (u : unit) (name message : string) :
  _pyodideReady st = Some (Fulfilled u) ->
  outcome ev = Throw (ErrorObject name message) ->
  let kept := List.filter (fun line => negb (includes line exec_marker))
                (split_lines message) in
  let cleaned := join_lines kept in
  let st' := (runPython code globals ev st).1 in
  (runPython code globals ev st).2 = Throws (ErrorObject "Error" cleaned) /\
  calls st' = calls (writes (written ev) st) ++
              match _output st with Some f => [(f, cleaned)] | None => [] end /\
  Forall (fun line => includes line exec_marker = false) (split_lines cleaned) /\
  (forall line a b, line ∈ split_lines cleaned -> line <> a +:+ exec_marker +:+ b) /\
  (kept <> [] -> split_lines cleaned = kept) /\
  (kept = [] -> cleaned = "").
Proof.
  intros Hready Hout kept cleaned st'.
  cut ((runPython code globals ev st).2 = Throws (ErrorObject "Error" cleaned) /\
       calls st' = calls (writes (written ev) st) ++
                   match _output st with Some f => [(f, cleaned)] | None => [] end /\
       Forall (fun line => includes line exec_marker = false) (split_lines cleaned) /\
       (kept <> [] -> split_lines cleaned = kept) /\
       (kept = [] -> cleaned = "")).
  { intros (H1 & H2 & H3 & H4 & H5). repeat (split; [done |]). split; [| done].
    intros line a b Hin ->.
    apply (proj1 (Forall_forall _ _) H3) in Hin.
    assert (Hinc : includes (a +:+ exec_marker +:+ b) exec_marker = true)
      by (apply includes_substring; by exists a, b).
    congruence. }
  assert (Hrun : runPython code globals ev st =
                 on_error (ErrorObject name message) (writes (written ev) st)).
  { unfold runPython. by rewrite Hready, Hout. }
  assert (Hkept : Forall (fun line => includes line exec_marker = false) kept).
  { apply Forall_forall. intros l Hl. apply list_elem_of_In in Hl.
    apply List.filter_In in Hl as [_ Hl]. by apply negb_true_iff. }
  assert (Hone : Forall (fun l => one_line l = true) kept).
  { apply Forall_forall. intros l Hl. apply list_elem_of_In in Hl.
    apply List.filter_In in Hl as [Hl _]. apply list_elem_of_In in Hl.
    by eapply (proj1 (Forall_forall _ _) (split_lines_one_line message)). }
  subst st'. rewrite Hrun. cbn [on_error fst snd].
  fold kept. fold cleaned. rewrite calls_call.
  destruct (writes_frame (written ev) st) as (_ & -> & _).
  split; [done |]. split; [done |].
  destruct kept as [|l ls] eqn:Hk.
  - split; [| done]. subst cleaned. simpl. by repeat constructor.
  - assert (Hsplit : split_lines cleaned = l :: ls)
      by (by apply split_join_lines).
    rewrite Hsplit. done.
Qed.

Lemma runPython_error_cleaned_and_forwarded_witness :
  let message := "Traceback" +:+ String newline
                   ("  " +:+ exec_marker +:+ ", line 1" +:+ String newline "NameError: x") in
  let ev := {| written := []; outcome := Throw (ErrorObject "PythonError" message) |} in
  let st := setOutput (Some 3)
              (run [Initialize None None; Happens (LoadSettles (Ok tt))] initial) in
  _pyodideReady st = Some (Fulfilled tt) /\
  outcome ev = Throw (ErrorObject "PythonError" message) /\
  (runPython "x" None ev st).2 =
    Throws (ErrorObject "Error" ("Traceback" +:+ String newline "NameError: x")) /\
  calls (runPython "x" None ev st).1 =
    [(3, "Traceback" +:+ String newline "NameError: x")].
Proof.
  intros message ev st.
  destruct (runPython_error_cleaned_and_forwarded "x" None ev st tt
              "PythonError" message eq_refl eq_refl) as (H1 & H2 & _).
  split; [reflexivity |]. split; [reflexivity |].
  split; [exact H1 | exact H2].
Defined.

(** C7 (amended): what [runPython] does with a throw of the evaluation
    depends on [err instanceof Error] and on nothing else.  A thrown value
    that is not an [Error] reaches the caller as it is: nothing is cleaned,
    no sink is called on its account, the state is the one the evaluation
    left.  Every [Error], of the engine's own type or of any other
    ([TypeError], [RangeError], ...), is replaced: the caller gets a new
    plain [Error] with the cleaned message, and the sink in [_output], if
    there is one, is called with that message. *)
Theorem runPython_rethrows_only_non_errors
    (code : string) (globals : option Globals) (ev : Evaluation) (st : State)
    (u : unit) :
  _pyodideReady st = Some (Fulfilled u) ->
  let st1 := writes (written ev) st in
  (forall v, outcome ev = Throw (Raised v) ->
     runPython code globals ev st = (st1, Throws (Raised v)) /\
     calls (runPython code globals ev st).1 = calls st1) /\
  (forall name message, outcome ev = Throw (ErrorObject name message) ->
     let cleaned :=
       join_lines (List.filter (fun line => negb (includes line exec_marker))
                     (split_lines message)) in
     runPython code globals ev st =
       (call (_output st) cleaned st1, Throws (ErrorObject "Error" cleaned)) /\
     (name <> "Error" ->
      (runPython code globals ev st).2 <> Throws (ErrorObject name message)) /\
     (forall f, _output st = Some f ->
        calls (runPython code globals ev st).1 = calls st1 ++ [(f, cleaned)])).
Proof.
  intros Hready st1. split.
  - intros v Hout. unfold runPython. by rewrite Hready, Hout.
  - intros name message Hout cleaned.
    assert (Hrun : runPython code globals ev st =
              (call (_output st) cleaned st1, Throws (ErrorObject "Error" cleaned))).
    { unfold runPython. rewrite Hready, Hout. cbn [on_error].
      by destruct (writes_frame (written ev) st) as (_ & -> & _). }
    split; [done |]. rewrite Hrun. cbn [fst snd]. split.
    + intros Hname [= H _]. by apply Hname.
    + intros f Hf. by rewrite Hf.
Qed.

Lemma runPython_rethrows_only_non_errors_witness :
  let ev := {| written := [(Stdout, "a")]; outcome := Throw (Raised (VString "oops")) |} in
  let st := setOutput (Some 3)
              (run [Initialize None None; Happens (LoadSettles (Ok tt))] initial) in
  _pyodideReady st = Some (Fulfilled tt) /\
  runPython "x" None ev st =
    ({| _pyodideReady := Some (Fulfilled tt); _output := Some 3;
        loads := [([], None)]; calls := [(3, "a")] |},
     Throws (Raised (VString "oops"))).
Proof.
  intros ev st. split; [reflexivity |].
  exact (proj1 (proj1 (runPython_rethrows_only_non_errors "x" None ev st tt eq_refl)
                  (VString "oops") eq_refl)).
Defined.

(** C7, as stated, fails for an [Error] that is not of the engine's own
    type: a [TypeError] thrown by the evaluation does not reach the caller.
    The caller gets a new plain [Error], the line with the marker is gone
    from its message, and the sink in [_output] was called with the cleaned
    message. *)
Lemma runPython_type_error_is_rewritten :
  let message := "f is not a function" +:+ String newline
                   ("  " +:+ exec_marker +:+ ", line 1") in
  let thrown := ErrorObject "TypeError" message in
  let ev := {| written := []; outcome := Throw thrown |} in
  let st := setOutput (Some 3)
              (run [Initialize None None; Happens (LoadSettles (Ok tt))] initial) in
  _pyodideReady st = Some (Fulfilled tt) /\
  (runPython "x" None ev st).2 = Throws (ErrorObject "Error" "f is not a function") /\
  (runPython "x" None ev st).2 <> Throws thrown /\
  calls st = [] /\
  calls (runPython "x" None ev st).1 = [(3, "f is not a function")].
Proof. by vm_compute. Qed.

(** *** The sink slot *)

Lemma calls_handler (x : option Sink) (msg : string) (st : State) :
  calls (call (_output (call x msg st)) msg (call x msg st)) =
  calls st ++ (match x with Some f => [(f, msg)] | None => [] end ++
               match _output st with Some f => [(f, msg)] | None => [] end).
Proof.
  rewrite calls_call. destruct (call_frame x msg st) as (_ & -> & _).
  by rewrite calls_call, app_assoc.
Qed.

Lemma write_deliveries (s : Stream) (msg : string) (st : State) :
  exists ds, calls (write s msg st) = calls st ++ ds /\
             Forall (accounted (_output st) (init_sinks st)) ds.
Proof.
  unfold write, init_sinks.
  destruct (loads st) as [|[pk o] l]; [exists []; by rewrite app_nil_r |].
  destruct s; unfold stdout_handler, stderr_handler;
    rewrite calls_handler; (eexists; split; [reflexivity |]);
    apply Forall_app; split.
  - destruct o as [[[f|] e]|]; simpl; [| apply Forall_nil_2 ..].
    apply Forall_singleton. right. apply list_elem_of_here.
  - destruct (_output st); [| apply Forall_nil_2].
    apply Forall_singleton. by left.
  - destruct o as [[e [f|]]|]; simpl; [| apply Forall_nil_2 ..].
    apply Forall_singleton. right. apply elem_of_app. right.
    apply list_elem_of_here.
  - destruct (_output st); [| apply Forall_nil_2].
    apply Forall_singleton. by left.
Qed.

Lemma init_sinks_loads (st st' : State) :
  loads st' = loads st -> init_sinks st' = init_sinks st.
Proof. unfold init_sinks. by intros ->. Qed.

Lemma writes_deliveries (chunks : list (Stream * string)) (st : State) :
  exists ds, calls (writes chunks st) = calls st ++ ds /\
             Forall (accounted (_output st) (init_sinks st)) ds.
Proof.
  revert st. induction chunks as [|[s msg] chunks IH]; intros st.
  - exists []. by rewrite app_nil_r.
  - simpl. destruct (IH (write s msg st)) as (ds2 & -> & H2).
    destruct (write_deliveries s msg st) as (ds1 & -> & H1).
    destruct (write_frame s msg st) as (_ & Ho & Hl).
    rewrite Ho, (init_sinks_loads _ _ Hl) in H2.
    exists (ds1 ++ ds2). rewrite app_assoc. split; [done |].
    apply Forall_app. by split.
Qed.

Lemma on_error_deliveries (err : Thrown) (st : State) :
  _pyodideReady (on_error err st).1 = _pyodideReady st /\
  _output (on_error err st).1 = _output st /\
  loads (on_error err st).1 = loads st /\
  exists ds, calls (on_error err st).1 = calls st ++ ds /\
             Forall (accounted (_output st) (init_sinks st)) ds.
Proof.
  destruct err as [name message | v]; cbn [on_error fst].
  - destruct (call_frame (_output st)
                (join_lines (List.filter
                   (fun line => negb (includes line exec_marker))
                   (split_lines message))) st) as (-> & -> & ->).
    repeat split. rewrite calls_call. eexists. split; [reflexivity |].
    destruct (_output st); [| apply Forall_nil_2].
    apply Forall_singleton. by left.
  - repeat split. exists []. by rewrite app_nil_r.
Qed.

Lemma runPython_deliveries (code : string) (globals : option Globals)
    (ev : Evaluation) (st : State) :
  let st' := (runPython code globals ev st).1 in
  _pyodideReady st' = _pyodideReady st /\ _output st' = _output st /\
  loads st' = loads st /\
  exists ds, calls st' = calls st ++ ds /\
             Forall (accounted (_output st) (init_sinks st)) ds.
Proof.
  unfold runPython.
  assert (Hnil : exists ds, calls st = calls st ++ ds /\
                   Forall (accounted (_output st) (init_sinks st)) ds)
    by (exists []; by rewrite app_nil_r).
  destruct (_pyodideReady st) as [[|u|e]|] eqn:Hr; cbn zeta; [done | | done |].
  - destruct (writes_frame (written ev) st) as (Hr' & Ho & Hl).
    destruct (writes_deliveries (written ev) st) as (ds1 & Hc & H1).
    destruct (outcome ev) as [v | err].
    + cbn [fst]. rewrite Hr', Ho, Hl, Hr. repeat split. by exists ds1.
    + destruct (on_error_deliveries err (writes (written ev) st))
        as (-> & -> & -> & ds2 & -> & H2).
      rewrite Hr', Ho, Hl, Hr. repeat split.
      rewrite Ho, (init_sinks_loads _ _ Hl) in H2.
      exists (ds1 ++ ds2). rewrite Hc, app_assoc. split; [done |].
      apply Forall_app. by split.
  - destruct globals; [cbn [fst]; by rewrite Hr |].
    destruct (on_error_deliveries undefined_pyodide st) as (-> & -> & -> & H).
    by rewrite Hr.
Qed.

(** *** The guard of [initialize] *)

Lemma step_loaded_once (e : Event) (st : State) :
  loaded_once st ->
  loaded_once (step e st) /\
  (_pyodideReady st <> None ->
   _pyodideReady (step e st) <> None /\ loads (step e st) = loads st).
Proof.
  unfold loaded_once. intros Hinv.
  destruct e as [pk o | code g ev | cb | [r | s msg]]; cbn [step happen].
  - unfold initialize.
    destruct (_pyodideReady st) eqn:Hr; cbn [fst _loadPyodide _pyodideReady loads].
    + by rewrite Hr.
    + rewrite Hinv. by split.
  - destruct (runPython_deliveries code g ev st) as (-> & _ & -> & _). by split.
  - simpl. by split.
  - unfold settle_load.
    destruct (_pyodideReady st) as [[|u|e]|] eqn:Hr; simpl; rewrite ?Hr; by split.
  - destruct (write_frame s msg st) as (-> & _ & ->). by split.
Qed.

Lemma run_loaded_once (evs : list Event) (st : State) :
  loaded_once st ->
  loaded_once (run evs st) /\
  (_pyodideReady st <> None ->
   _pyodideReady (run evs st) <> None /\ loads (run evs st) = loads st).
Proof.
  revert st. induction evs as [|e evs IH]; intros st Hinv; [by split |].
  change (run (e :: evs) st) with (run evs (step e st)).
  destruct (step_loaded_once e st Hinv) as [Hinv1 H1].
  destruct (IH (step e st) Hinv1) as [Hinv2 H2].
  split; [done |]. intros Hr.
  destruct (H1 Hr) as [Hr1 Hl1]. destruct (H2 Hr1) as [Hr2 Hl2].
  split; [done | congruence].
Qed.

(** C10: once [initialize] has been called, every further call of it throws
    ["pyodide was already initialized"] and leaves the state as it is,
    whatever happened in between: nothing (the load is pending), the load
    succeeded, the load failed, or anything else.  [_pyodideReady] is set by
    the first call itself and never reset, and [loadPyodide] is started
    once in the whole life of the worker. *)
Theorem initialize_again_always_throws
    (evs1 : list Event) (packages : option (list string))
    (options : option IoOptions) (evs2 : list Event)
    (packages' : option (list string)) (options' : option IoOptions) :
  let st1 := step (Initialize packages options) (run evs1 initial) in
  let st := run evs2 st1 in
  _pyodideReady st1 <> None /\
  _pyodideReady st <> None /\
  initialize packages' options' st = (st, Throw already_initialized) /\
  length (loads st) = 1.
Proof.
  intros st1 st.
  destruct (run_loaded_once evs1 initial eq_refl) as [Hinv0 _].
  destruct (step_loaded_once (Initialize packages options) _ Hinv0) as [Hinv1 _].
  assert (Hr1 : _pyodideReady st1 <> None).
  { subst st1. cbn [step]. unfold initialize.
    by destruct (_pyodideReady (run evs1 initial)) eqn:Hr;
      cbn [fst _loadPyodide _pyodideReady]; rewrite ?Hr. }
  destruct (run_loaded_once evs2 st1 Hinv1) as [Hinv H].
  destruct (H Hr1) as [Hr Hl]. fold st in Hinv, Hr, Hl.
  split; [done |]. split; [done |].
  unfold initialize, loaded_once in *.
  by destruct (_pyodideReady st).
Qed.

End WorkerFacts.

(** ** The foreground: Bridge Client and Initialization Coordinator *)

Section ForegroundFacts.

Import Worker Foreground.

Variable JSON_parse : Value -> Result Value.

Local Abbreviation exec := (Foreground.exec JSON_parse).
Local Abbreviation run := (Foreground.run JSON_parse).

Lemma run_app (ops1 ops2 : list Op) (W : World) :
  run (ops1 ++ ops2) W =
  ((run ops2 (run ops1 W).1).1, (run ops1 W).2 ++ (run ops2 (run ops1 W).1).2).
Proof.
  revert W. induction ops1 as [|op ops1 IH]; intros W; simpl.
  - by destruct (run ops2 W).
  - destruct (exec op W) as [W1 r]. rewrite IH.
    by destruct (run ops1 W1) as [W2 tr].
Qed.

Lemma run_cons (op : Op) (ops : list Op) (W : World) :
  run (op :: ops) W =
  ((run ops (exec op W).1).1, (op, (exec op W).2) :: (run ops (exec op W).1).2).
Proof.
  simpl. destruct (exec op W) as [W1 r]. simpl. by destruct (run ops W1).
Qed.

(** *** Frame properties of the client operations *)

Lemma same_but_workers_refl (W : World) : same_but_workers W W.
Proof. by repeat split. Qed.

Lemma remote_frame {A : Type} (r : nat) (f : Worker.State -> Worker.State * A)
    (W W' : World) (a : A) :
  remote r f W = Some (W', a) -> same_but_workers W W'.
Proof.
  unfold remote. destruct (workers W !! r) as [c|]; simpl; [| done].
  destruct (f (endpoint c)) as [st a']. intros [= <- <-].
  repeat split. simpl. by rewrite length_insert.
Qed.

Lemma runPython_frame (code : string) (g : option Globals) (ev : Evaluation)
    (W : World) :
  same_but_workers W (runPython code g ev W).1.
Proof.
  unfold runPython.
  destruct (_worker W), (_runner W) as [r|]; try apply same_but_workers_refl.
  destruct (remote r _ W) as [[W1 v]|] eqn:Hr; [| apply same_but_workers_refl].
  by apply remote_frame in Hr.
Qed.

Lemma runPythonJson_world (code : string) (g : option Globals)
    (ev : Evaluation) (W : World) :
  (runPythonJson JSON_parse code g ev W).1 = (runPython code g ev W).1.
Proof.
  unfold runPythonJson. destruct (runPython code g ev W) as [W1 [v|e|]]; [| done ..].
  destruct (truthy v); [| done]. by destruct (JSON_parse v).
Qed.

Lemma setOutput_frame (cb : option Sink) (W : World) :
  same_but_workers W (setOutput cb W).1.
Proof.
  unfold setOutput. destruct (_runner W) as [r|]; [| apply same_but_workers_refl].
  destruct (remote r _ W) as [[W1 v]|] eqn:Hr; [| apply same_but_workers_refl].
  by apply remote_frame in Hr.
Qed.

Lemma terminate_frame (W : World) :
  pyodide (terminate W) = pyodide W /\
  worker_inits (terminate W) = worker_inits W /\
  setDebug_calls (terminate W) = setDebug_calls W /\
  fresh (terminate W) = fresh W /\
  length (workers (terminate W)) = length (workers W) /\
  _worker (terminate W) = None /\ _runner (terminate W) = None.
Proof.
  unfold terminate. simpl. repeat split.
  destruct (_worker W); [| done]. by rewrite length_alter.
Qed.

Lemma in_worker_frame (w : nat) (h : Happening) (W : World) :
  same_but_workers W (in_worker w h W).
Proof.
  unfold in_worker.
  destruct (workers W !! w) as [c|]; [| apply same_but_workers_refl].
  destruct (terminated c); [apply same_but_workers_refl |].
  repeat split. simpl. by rewrite length_insert.
Qed.

(** An operation that is neither a call of the Coordinator nor a direct
    [initializeWorker] leaves the Coordinator's variable, the record of
    initializations and the number of workers as they are. *)
Lemma other_op_frame (op : Op) (W : World) :
  coordinator_call op = false -> direct_init op = false ->
  pyodide (exec op W).1 = pyodide W /\
  worker_inits (exec op W).1 = worker_inits W /\
  length (workers (exec op W).1) = length (workers W) /\
  (_worker W = None -> _runner W = None ->
   _worker (exec op W).1 = None /\ _runner (exec op W).1 = None) /\
  handed_out [(op, (exec op W).2)] = [].
Proof.
  intros Hc Hd. destruct op as [o | o | pk o | code g ev | code g ev | cb | | w h];
    try done; cbn [Foreground.exec].
  - pose proof (runPython_frame code g ev W) as H.
    destruct (runPython code g ev W) as [W1 c]. simpl in *.
    destruct H as (-> & -> & _ & -> & -> & _ & ->). done.
  - pose proof (runPython_frame code g ev W) as H.
    pose proof (runPythonJson_world code g ev W) as Hw.
    destruct (runPythonJson JSON_parse code g ev W) as [W1 c]. simpl in *.
    subst W1. destruct H as (-> & -> & _ & -> & -> & _ & ->). done.
  - pose proof (setOutput_frame cb W) as H.
    destruct (setOutput cb W) as [W1 c]. simpl in *.
    destruct H as (-> & -> & _ & -> & -> & _ & ->). done.
  - cbn [fst snd].
    destruct (terminate_frame W) as (-> & -> & _ & _ & -> & -> & ->). done.
  - cbn [fst snd].
    destruct (in_worker_frame w h W) as (-> & -> & _ & -> & -> & _ & ->). done.
Qed.

(** *** The Coordinator *)

Lemma handed_out_app (tr1 tr2 : list (Op * Ret)) :
  handed_out (tr1 ++ tr2) = handed_out tr1 ++ handed_out tr2.
Proof.
  induction tr1 as [|[op [p | c | r]] tr1 IH]; simpl; [done | | done | done].
  destruct (coordinator_call op); simpl; by rewrite IH.
Qed.

(** A call of [initializePyodide] that finds a recorded promise. *)
Lemma initializePyodide_recorded (o : option InitOptions) (W : World) (p : Promise) :
  pyodide W = Some p ->
  initializePyodide o W =
  (setDebug (default false (o ≫= debug)) (allocate W), AsyncReturn (fresh W) p).
Proof. intros Hp. unfold initializePyodide. simpl. by rewrite Hp. Qed.

Lemma getPyodide_recorded (o : option IoOptions) (W : World) (p : Promise) :
  pyodide W = Some p ->
  getPyodide o W = (allocate W, AsyncReturn (fresh W) p).
Proof. intros Hp. unfold getPyodide. simpl. by rewrite Hp. Qed.

(** [initializeWorker] without a worker makes one.  Without sinks it calls
    the worker's [initialize], which does not throw and starts the engine;
    with a sink the call is rejected and the worker stays as it was made.
    With a worker [initializeWorker] does nothing. *)
Lemma initializeWorker_new (pk : option (list string)) (o : option IoOptions)
    (W : World) :
  _worker W = None ->
  exists st k,
    initializeWorker pk o W =
    (set_workers (workers W ++ [{| terminated := false; endpoint := st |}])
       (set_channel (Some (length (workers W))) (Some (length (workers W)))
          (log_worker_init pk o (allocate W))),
     InitializeWorkerCall (fresh W) k) /\
    (calls st = [] /\ _output st = None /\ loaded_once st /\ init_sinks st = []) /\
    ((cloneable o = true /\ k = Remote (length (workers W)) /\
      _pyodideReady st = Some Pending /\ loads st = [(default [] pk, o)]) \/
     (cloneable o = false /\ k = Refused data_clone_error /\
      st = Worker.initial)).
Proof.
  intros Hwk. unfold initializeWorker.
  cbn [_worker log_worker_init allocate]. rewrite Hwk.
  destruct o as [[[so|] [se|]]|]; cbn; eexists _, _;
    (split; [reflexivity |]); (split; [done |]);
    first [by left | by right].
Qed.

Lemma initializeWorker_skipped (pk : option (list string)) (o : option IoOptions)
    (W : World) (w : nat) :
  _worker W = Some w ->
  initializeWorker pk o W =
  (log_worker_init pk o (allocate W), InitializeWorkerCall (fresh W) Skipped).
Proof.
  intros Hwk. unfold initializeWorker.
  cbn [_worker log_worker_init allocate]. by rewrite Hwk.
Qed.

(** A call of [initializePyodide] that finds nothing initialized. *)
Lemma initializePyodide_first (o : option InitOptions) (W : World) :
  untouched W ->
  exists p r, (initializePyodide o W).2 = r /\
    recorded p (initializePyodide o W).1 /\
    forall W', settle W' r = settle W' p.
Proof.
  intros (Hp & Hi & Hw & Hwk & Hr).
  unfold initializePyodide, _initializePyodide.
  cbn [pyodide setDebug allocate]. rewrite Hp.
  match goal with
  | |- context [initializeWorker ?pk ?wo ?W0] =>
      destruct (initializeWorker_new pk wo W0 Hwk) as (st & k & -> & _)
  end.
  cbn [fst snd set_pyodide pyodide worker_inits workers set_workers
         set_channel log_worker_init allocate setDebug].
  eexists _, _. split; [reflexivity |]. split.
  - unfold recorded.
    cbn [pyodide worker_inits workers set_pyodide set_workers set_channel
           log_worker_init allocate setDebug].
    rewrite Hi, Hw. by repeat split.
  - intros W'. by cbn [settle].
Qed.

Lemma coordinator_first_call (op : Op) (W : World) :
  coordinator_call op = true -> untouched W ->
  exists p r, (exec op W).2 = Promised r /\
    recorded p (exec op W).1 /\
    forall W', settle W' r = settle W' p.
Proof.
  intros Hc Hu. destruct op as [o | o | | | | | |]; try done; cbn [Foreground.exec].
  - destruct (initializePyodide_first o W Hu) as (p & r & Hr & Hrec & Hs).
    destruct (initializePyodide o W) as [W1 r1]. simpl in *. subst r1.
    by exists p, r.
  - unfold getPyodide. cbn [pyodide allocate].
    destruct Hu as (Hp & Hi & Hw & Hwk & Hr). rewrite Hp.
    set (o' := match o with Some o0 => _ | None => None end).
    assert (Hu : untouched (allocate W)) by (by repeat split).
    destruct (initializePyodide_first o' (allocate W) Hu) as (p & r & Hr' & Hrec & Hs).
    destruct (initializePyodide o' (allocate W)) as [W1 r1]. simpl in *. subst r1.
    exists p, (AsyncReturn (fresh W) r).
    split; [done |]. split; [done |]. intros W'. apply Hs.
Qed.

Lemma coordinator_later_call (op : Op) (W : World) (p : Promise) :
  coordinator_call op = true -> pyodide W = Some p ->
  (exec op W).2 = Promised (AsyncReturn (fresh W) p) /\
  pyodide (exec op W).1 = Some p /\
  worker_inits (exec op W).1 = worker_inits W /\
  workers (exec op W).1 = workers W.
Proof.
  intros Hc Hp. destruct op as [o | o | | | | | |]; try done; cbn [Foreground.exec].
  - by rewrite (initializePyodide_recorded o W p Hp).
  - by rewrite (getPyodide_recorded o W p Hp).
Qed.

(** After the first call: the recorded promise stays, no initialization is
    started, and every call of the Coordinator returns the recorded promise. *)
Lemma run_recorded (ops : list Op) (W : World) (p : Promise) :
  coordinated ops = true -> recorded p W ->
  recorded p (run ops W).1 /\
  Forall (fun r => exists id, r = AsyncReturn id p) (handed_out (run ops W).2).
Proof.
  revert W. induction ops as [|op ops IH]; intros W Hd Hrec; [by split |].
  cbn [coordinated forallb] in Hd. apply andb_true_iff in Hd as [Hd Hds].
  apply negb_true_iff in Hd. rewrite run_cons. cbn [fst snd].
  destruct Hrec as (Hp & Hi & Hw).
  destruct (coordinator_call op) eqn:Hc.
  - destruct (coordinator_later_call op W p Hc Hp) as (Hr & Hp1 & Hi1 & Hw1).
    assert (Hrec1 : recorded p (exec op W).1)
      by (unfold recorded; by rewrite Hp1, Hi1, Hw1).
    destruct (IH _ Hds Hrec1) as [Hrec2 Hall]. split; [done |].
    rewrite Hr. cbn [handed_out]. rewrite Hc. constructor; [by eexists | done].
  - destruct (other_op_frame op W Hc Hd) as (Hp1 & Hi1 & Hw1 & _ & Hh).
    assert (Hrec1 : recorded p (exec op W).1)
      by (unfold recorded; by rewrite Hp1, Hi1, Hw1).
    destruct (IH _ Hds Hrec1) as [Hrec2 Hall]. split; [done |].
    change ((op, (exec op W).2) :: (run ops (exec op W).1).2)
      with ([(op, (exec op W).2)] ++ (run ops (exec op W).1).2).
    by rewrite handed_out_app, Hh.
Qed.

Lemma other_op_untouched (op : Op) (W : World) :
  coordinator_call op = false -> direct_init op = false ->
  untouched W -> untouched (exec op W).1.
Proof.
  intros Hc Hd (Hp & Hi & Hw & Hwk & Hr).
  destruct (other_op_frame op W Hc Hd) as (Hp1 & Hi1 & Hw1 & Hch & _).
  destruct (Hch Hwk Hr) as [Hwk1 Hr1].
  repeat split; [congruence | congruence | | done | done].
  apply length_zero_iff_nil. by rewrite Hw1, Hw.
Qed.

(** From a state in which nothing is initialized: until the first call of
    the Coordinator nothing changes; that call records a promise and starts
    the one initialization. *)
Lemma run_untouched (ops : list Op) (W : World) :
  coordinated ops = true -> untouched W ->
  (existsb coordinator_call ops = false ->
   untouched (run ops W).1 /\ handed_out (run ops W).2 = []) /\
  (existsb coordinator_call ops = true ->
   exists p first rest,
     recorded p (run ops W).1 /\
     handed_out (run ops W).2 = first :: rest /\
     (forall W', settle W' first = settle W' p) /\
     Forall (fun r => exists id, r = AsyncReturn id p) rest).
Proof.
  revert W. induction ops as [|op ops IH]; intros W Hd Hu; [by split |].
  cbn [coordinated forallb] in Hd. apply andb_true_iff in Hd as [Hd Hds].
  apply negb_true_iff in Hd. rewrite run_cons. cbn [fst snd existsb].
  destruct (coordinator_call op) eqn:Hc; cbn [orb].
  - split; [done |]. intros _.
    destruct (coordinator_first_call op W Hc Hu) as (p & r & Hr & Hrec & Hs).
    destruct (run_recorded ops _ p Hds Hrec) as [Hrec2 Hall].
    exists p, r, (handed_out (run ops (exec op W).1).2).
    rewrite Hr. cbn [handed_out]. by rewrite Hc.
  - pose proof (other_op_untouched op W Hc Hd Hu) as Hu1.
    destruct (other_op_frame op W Hc Hd) as (_ & _ & _ & _ & Hh).
    change ((op, (exec op W).2) :: (run ops (exec op W).1).2)
      with ([(op, (exec op W).2)] ++ (run ops (exec op W).1).2).
    rewrite handed_out_app, Hh. cbn [app].
    by apply IH.
Qed.

Lemma coordinated_app (ops1 ops2 : list Op) :
  coordinated (ops1 ++ ops2) = coordinated ops1 && coordinated ops2.
Proof. unfold coordinated. apply forallb_app. Qed.

Lemma untouched_initial : untouched initial.
Proof. by repeat split. Qed.

(** C1: in every run that starts with nothing initialized, in which
    [initializeWorker] is reached through the Coordinator only and
    [initializePyodide] or [getPyodide] is called at least once, whatever else
    happens in between (the load settles, the engine writes, the client is
    used or terminated): [initializeWorker] is invoked exactly once and one
    worker is made; there is a promise [p] that the variable [pyodide] holds
    from the return of the first call on, after every call; every call after
    the first ends with [return p]; and the promises handed to the callers,
    the first included, are in every world in the state of [p], hence all
    fulfilled with the same bridge object when fulfilled. *)
Theorem coordinator_initializes_once (ops : list Op) :
  coordinated ops = true ->
  existsb coordinator_call ops = true ->
  let W := (run ops initial).1 in
  let handed := handed_out (run ops initial).2 in
  length (worker_inits W) = 1 /\ length (workers W) = 1 /\
  exists p,
    pyodide W = Some p /\
    (forall pre op post, ops = pre ++ op :: post -> coordinator_call op = true ->
       pyodide (run (pre ++ [op]) initial).1 = Some p) /\
    (exists first rest, handed = first :: rest /\
       Forall (fun r => exists id, r = AsyncReturn id p) rest) /\
    Forall (fun r => forall W', settle W' r = settle W' p) handed /\
    (forall r1 r2 W' b, r1 ∈ handed -> r2 ∈ handed ->
       settle W' r1 = Fulfilled b -> settle W' r2 = Fulfilled b).
Proof.
  intros Hd He W handed.
  destruct (run_untouched ops initial Hd untouched_initial) as [_ H].
  destruct (H He) as (p & first & rest & Hrec & Hh & Hfirst & Hrest).
  fold W in Hrec. fold handed in Hh.
  destruct Hrec as (Hp & Hi & Hw).
  split; [done |]. split; [done |]. exists p.
  assert (Hall : Forall (fun r => forall W', settle W' r = settle W' p) handed).
  { rewrite Hh. constructor; [done |].
    eapply Forall_impl; [exact Hrest |]. by intros r [id ->] W'. }
  split; [done |]. split; [| split; [by exists first, rest |]]; [| split; [done |]].
  - intros pre op post Hops Hc.
    assert (Hsplit : ops = (pre ++ [op]) ++ post) by (by rewrite <- app_assoc).
    rewrite Hsplit, coordinated_app in Hd. apply andb_true_iff in Hd as [Hd1 Hd2].
    destruct (run_untouched (pre ++ [op]) initial Hd1 untouched_initial) as [_ H1].
    destruct H1 as (p' & _ & _ & Hrec' & _).
    { rewrite existsb_app. simpl. rewrite Hc. by rewrite orb_true_r. }
    destruct (run_recorded post _ p' Hd2 Hrec') as [(Hp' & _) _].
    destruct Hrec' as (Hp1 & _). rewrite Hp1. f_equal.
    assert (HW : W = (run post (run (pre ++ [op]) initial).1).1).
    { unfold W. by rewrite Hsplit, run_app. }
    rewrite <- HW, Hp in Hp'. by injection Hp'.
  - intros r1 r2 W' b H1 H2.
    rewrite (proj1 (Forall_forall _ _) Hall r1 H1 W').
    by rewrite (proj1 (Forall_forall _ _) Hall r2 H2 W').
Qed.

(** *** Settled promises stay settled *)

Lemma later_refl (W : World) : later W W.
Proof. intros w c Hc. by exists c. Qed.

Lemma later_trans (W1 W2 W3 : World) : later W1 W2 -> later W2 W3 -> later W1 W3.
Proof.
  intros H12 H23 w c Hc.
  destruct (H12 w c Hc) as (c2 & Hc2 & H2).
  destruct (H23 w c2 Hc2) as (c3 & Hc3 & H3).
  exists c3. split; [done |]. intros Hp Hn.
  rewrite <- (H2 Hp Hn). apply H3; by rewrite (H2 Hp Hn).
Qed.

Lemma later_same_workers (W W' : World) : workers W' = workers W -> later W W'.
Proof. intros Hw w c Hc. exists c. by rewrite Hw. Qed.

Lemma later_append (W W' : World) (cs : list WorkerCell) :
  workers W' = workers W ++ cs -> later W W'.
Proof.
  intros Hw w c Hc. exists c. split; [| done].
  rewrite Hw. by apply lookup_app_l_Some.
Qed.

Lemma later_insert (W W' : World) (r : nat) (c0 c1 : WorkerCell) :
  workers W !! r = Some c0 ->
  workers W' = <[r := c1]> (workers W) ->
  (_pyodideReady (endpoint c0) <> Some Pending ->
   _pyodideReady (endpoint c0) <> None ->
   _pyodideReady (endpoint c1) = _pyodideReady (endpoint c0)) ->
  later W W'.
Proof.
  intros Hr Hw Hready w c Hc. rewrite Hw.
  destruct (decide (r = w)) as [-> | Hne].
  - exists c1. rewrite list_lookup_insert_eq by (by eapply lookup_lt_Some).
    split; [done |]. rewrite Hc in Hr. by injection Hr as ->.
  - exists c. by rewrite list_lookup_insert_ne.
Qed.

Lemma remote_later {A : Type} (r : nat) (f : Worker.State -> Worker.State * A)
    (W W' : World) (a : A) :
  (forall st, _pyodideReady (f st).1 = _pyodideReady st) ->
  remote r f W = Some (W', a) -> later W W'.
Proof.
  intros Hf. unfold remote. destruct (workers W !! r) as [c|] eqn:Hc; simpl; [| done].
  pose proof (Hf (endpoint c)) as Hready.
  destruct (f (endpoint c)) as [st a']. intros [= <- <-].
  eapply later_insert; [exact Hc | reflexivity |]. by intros _ _.
Qed.

Lemma runPython_later (code : string) (g : option Globals) (ev : Evaluation)
    (W : World) :
  later W (runPython code g ev W).1.
Proof.
  unfold runPython.
  destruct (_worker W), (_runner W) as [r|]; try apply later_refl.
  destruct (remote r _ W) as [[W1 v]|] eqn:Hr; [| apply later_refl].
  eapply remote_later; [| exact Hr].
  intros st. by destruct (runPython_deliveries code g ev st) as (-> & _).
Qed.

Lemma setOutput_later (cb : option Sink) (W : World) : later W (setOutput cb W).1.
Proof.
  unfold setOutput. destruct (_runner W) as [r|]; [| apply later_refl].
  destruct (remote r _ W) as [[W1 v]|] eqn:Hr; [| apply later_refl].
  eapply remote_later; [| exact Hr]. done.
Qed.

Lemma terminate_later (W : World) : later W (terminate W).
Proof.
  unfold terminate. destruct (_worker W) as [w|]; [| by apply later_same_workers].
  intros w' c Hc. cbn [workers set_channel set_workers].
  destruct (decide (w = w')) as [-> | Hne].
  - eexists. rewrite list_lookup_alter_eq, Hc. by split.
  - exists c. by rewrite list_lookup_alter_ne.
Qed.

Lemma in_worker_later (w : nat) (h : Happening) (W : World) :
  later W (in_worker w h W).
Proof.
  unfold in_worker. destruct (workers W !! w) as [c|] eqn:Hc; [| apply later_refl].
  destruct (terminated c); [apply later_refl |].
  eapply later_insert; [exact Hc | reflexivity |]. cbn [endpoint].
  intros Hp Hn. destruct h as [r | s msg]; cbn [happen].
  - unfold settle_load.
    destruct (_pyodideReady (endpoint c)) as [[| |]|] eqn:Hr; simpl; by rewrite ?Hr.
  - by destruct (write_frame s msg (endpoint c)) as (-> & _).
Qed.

Lemma initializeWorker_later (pk : option (list string)) (o : option IoOptions)
    (W : World) :
  later W (initializeWorker pk o W).1.
Proof.
  destruct (_worker W) as [w|] eqn:Hw.
  - rewrite (initializeWorker_skipped pk o W w Hw). by apply later_same_workers.
  - destruct (initializeWorker_new pk o W Hw) as (st & k & -> & _).
    by eapply later_append.
Qed.

Lemma initializePyodide_later (o : option InitOptions) (W : World) :
  later W (initializePyodide o W).1.
Proof.
  destruct (pyodide W) as [p|] eqn:Hp.
  - rewrite (initializePyodide_recorded o W p Hp). by apply later_same_workers.
  - unfold initializePyodide, _initializePyodide.
    cbn [pyodide setDebug allocate]. rewrite Hp.
    match goal with
    | |- context [initializeWorker ?pk ?wo ?W0] =>
        pose proof (initializeWorker_later pk wo W0) as H;
        destruct (initializeWorker pk wo W0) as [W1 p1]
    end.
    intros w c Hc. by apply (H w c).
Qed.

Lemma getPyodide_later (o : option IoOptions) (W : World) :
  later W (getPyodide o W).1.
Proof.
  destruct (pyodide W) as [p|] eqn:Hp.
  - rewrite (getPyodide_recorded o W p Hp). by apply later_same_workers.
  - unfold getPyodide. cbn [pyodide allocate]. rewrite Hp.
    match goal with
    | |- context [initializePyodide ?o' ?W0] =>
        pose proof (initializePyodide_later o' W0) as H;
        destruct (initializePyodide o' W0) as [W1 p1]
    end.
    intros w c Hc. by apply (H w c).
Qed.

Lemma exec_later (op : Op) (W : World) : later W (exec op W).1.
Proof.
  destruct op as [o | o | pk o | code g ev | code g ev | cb | | w h];
    cbn [Foreground.exec].
  - pose proof (initializePyodide_later o W) as H.
    by destruct (initializePyodide o W).
  - pose proof (getPyodide_later o W) as H. by destruct (getPyodide o W).
  - pose proof (initializeWorker_later pk o W) as H.
    by destruct (initializeWorker pk o W).
  - pose proof (runPython_later code g ev W) as H.
    by destruct (runPython code g ev W).
  - pose proof (runPython_later code g ev W) as H.
    rewrite <- runPythonJson_world in H.
    by destruct (runPythonJson JSON_parse code g ev W).
  - pose proof (setOutput_later cb W) as H. by destruct (setOutput cb W).
  - apply terminate_later.
  - apply in_worker_later.
Qed.

Lemma run_later (ops : list Op) (W : World) : later W (run ops W).1.
Proof.
  revert W. induction ops as [|op ops IH]; intros W; [apply later_refl |].
  rewrite run_cons. cbn [fst].
  eapply later_trans; [apply exec_later | apply IH].
Qed.

(** A promise that is settled in a world is in the same state in every
    later world. *)
Lemma settle_later (W W' : World) (p : Promise) :
  later W W' -> settle W p <> Pending -> settle W' p = settle W p.
Proof.
  intros Hl. induction p as [id [| w | e] | id p IH]; cbn [settle]; try done.
  destruct (workers W !! w) as [c|] eqn:Hc; [| done].
  destruct (Hl w c Hc) as (c' & -> & Hready).
  destruct (_pyodideReady (endpoint c)) as [[|u|e]|] eqn:Hr; try done;
    intros _; by rewrite Hready.
Qed.

(** C5: take a run in which [initializeWorker] is reached through the
    Coordinator only and, at some point, the recorded promise [p] is rejected
    with [e] (the one initialization has failed).  Then, whatever is done
    afterwards, [pyodide] still holds [p], [p] is still rejected with [e],
    [initializeWorker] has been invoked once in all and one worker made, and
    every promise the Coordinator handed out, before the failure or after it,
    is rejected with [e]. *)
Theorem failed_initialization_is_permanent
    (ops1 ops2 : list Op) (p : Promise) (e : Thrown) :
  coordinated (ops1 ++ ops2) = true ->
  let W1 := (run ops1 initial).1 in
  pyodide W1 = Some p ->
  settle W1 p = Rejected e ->
  let W2 := (run ops2 W1).1 in
  pyodide W2 = Some p /\ settle W2 p = Rejected e /\
  length (worker_inits W2) = 1 /\ length (workers W2) = 1 /\
  Forall (fun r => settle W2 r = Rejected e)
    (handed_out ((run ops1 initial).2 ++ (run ops2 W1).2)).
Proof.
  intros Hd W1 Hp Hrej W2.
  rewrite coordinated_app in Hd. apply andb_true_iff in Hd as [Hd1 Hd2].
  destruct (run_untouched ops1 initial Hd1 untouched_initial) as [Hno Hyes].
  fold W1 in Hno, Hyes.
  destruct (existsb coordinator_call ops1).
  2: { destruct (Hno eq_refl) as [(Hnone & _) _]. congruence. }
  destruct (Hyes eq_refl) as (p' & first & rest & Hrec & Hh & Hfirst & Hrest).
  assert (p' = p) as -> by (destruct Hrec as (Hp' & _); congruence).
  destruct (run_recorded ops2 W1 p Hd2 Hrec) as [(Hp2 & Hi2 & Hw2) Hall2].
  fold W2 in Hp2, Hi2, Hw2.
  assert (Hrej2 : settle W2 p = Rejected e).
  { rewrite <- Hrej. apply settle_later; [apply run_later | by rewrite Hrej]. }
  split; [done |]. split; [done |]. split; [done |]. split; [done |].
  rewrite handed_out_app. apply Forall_app. split.
  - rewrite Hh. constructor; [by rewrite Hfirst |].
    eapply Forall_impl; [exact Hrest |]. by intros r [id ->].
  - eapply Forall_impl; [exact Hall2 |]. by intros r [id ->].
Qed.

(** *** Later calls of the Coordinator *)




(** *** The client's guards *)

Lemma initializeWorker_logs (pk : option (list string)) (o : option IoOptions)
    (W : World) :
  worker_inits (initializeWorker pk o W).1 = (pk, o) :: worker_inits W.
Proof.
  destruct (_worker W) as [w|] eqn:Hw.
  - by rewrite (initializeWorker_skipped pk o W w Hw).
  - by destruct (initializeWorker_new pk o W Hw) as (st & k & -> & _).
Qed.

Lemma initializePyodide_logs (o : option InitOptions) (W : World) :
  pyodide W = None -> worker_inits (initializePyodide o W).1 <> [].
Proof.
  intros Hp. unfold initializePyodide, _initializePyodide.
  cbn [pyodide setDebug allocate]. rewrite Hp.
  match goal with
  | |- context [initializeWorker ?pk ?wo ?W0] =>
      pose proof (initializeWorker_logs pk wo W0) as H;
      destruct (initializeWorker pk wo W0) as [W1 p1]
  end.
  cbn [fst set_pyodide worker_inits] in *. by rewrite H.
Qed.

(** As long as [initializeWorker] has not been invoked there is no worker
    and no proxy. *)
Lemma exec_no_channel (op : Op) (W : World) :
  (worker_inits W = [] -> _worker W = None /\ _runner W = None) ->
  worker_inits (exec op W).1 = [] ->
  _worker (exec op W).1 = None /\ _runner (exec op W).1 = None.
Proof.
  intros Hinv.
  destruct op as [o | o | pk o | code g ev | code g ev | cb | | w h].
  - cbn [Foreground.exec]. destruct (pyodide W) as [p|] eqn:Hp.
    + rewrite (initializePyodide_recorded o W p Hp). exact Hinv.
    + pose proof (initializePyodide_logs o W Hp) as H.
      by destruct (initializePyodide o W).
  - cbn [Foreground.exec]. destruct (pyodide W) as [p|] eqn:Hp.
    + rewrite (getPyodide_recorded o W p Hp). exact Hinv.
    + unfold getPyodide. cbn [pyodide allocate]. rewrite Hp.
      match goal with
      | |- context [initializePyodide ?o' ?W0] =>
          pose proof (initializePyodide_logs o' W0 Hp) as H;
          destruct (initializePyodide o' W0) as [W1 p1]
      end. done.
  - cbn [Foreground.exec]. pose proof (initializeWorker_logs pk o W) as H.
    destruct (initializeWorker pk o W). cbn [fst] in *. by rewrite H.
  - destruct (other_op_frame (RunPython code g ev) W eq_refl eq_refl)
      as (_ & -> & _ & H & _). intros Hi. destruct (Hinv Hi). by apply H.
  - destruct (other_op_frame (RunPythonJson code g ev) W eq_refl eq_refl)
      as (_ & -> & _ & H & _). intros Hi. destruct (Hinv Hi). by apply H.
  - destruct (other_op_frame (SetOutput cb) W eq_refl eq_refl)
      as (_ & -> & _ & H & _). intros Hi. destruct (Hinv Hi). by apply H.
  - destruct (other_op_frame Terminate W eq_refl eq_refl)
      as (_ & -> & _ & H & _). intros Hi. destruct (Hinv Hi). by apply H.
  - destruct (other_op_frame (InWorker w h) W eq_refl eq_refl)
      as (_ & -> & _ & H & _). intros Hi. destruct (Hinv Hi). by apply H.
Qed.

Lemma run_no_channel (ops : list Op) (W : World) :
  (worker_inits W = [] -> _worker W = None /\ _runner W = None) ->
  worker_inits (run ops W).1 = [] ->
  _worker (run ops W).1 = None /\ _runner (run ops W).1 = None.
Proof.
  revert W. induction ops as [|op ops IH]; intros W Hinv; [done |].
  rewrite run_cons. cbn [fst]. apply IH. by apply exec_no_channel.
Qed.

Lemma not_loaded_without_channel (W : World) (code : string)
    (g : option Globals) (ev : Evaluation) (cb : option Sink) :
  _worker W = None -> _runner W = None ->
  runPython code g ev W = (W, Throws not_loaded) /\
  runPythonJson JSON_parse code g ev W = (W, Throws not_loaded) /\
  setOutput cb W = (W, Throw not_loaded).
Proof.
  intros Hw Hr. unfold runPythonJson, runPython, setOutput. by rewrite Hw, Hr.
Qed.

(** C2 (amended): [runPython], [runPythonJson] and [setOutput] of the client
    fail with ["pyodide isn't loaded yet"], changing nothing, in each state in
    which there is no worker: before [initializeWorker] has been invoked at
    all, and right after [terminate()]. *)
Theorem not_loaded_before_init_and_after_terminate
    (ops : list Op) (code : string) (g : option Globals) (ev : Evaluation)
    (cb : option Sink) :
  let W := (run ops initial).1 in
  (worker_inits W = [] \/ exists ops', ops = ops' ++ [Terminate]) ->
  runPython code g ev W = (W, Throws not_loaded) /\
  runPythonJson JSON_parse code g ev W = (W, Throws not_loaded) /\
  setOutput cb W = (W, Throw not_loaded).
Proof.
  intros W H.
  assert (Hch : _worker W = None /\ _runner W = None).
  { destruct H as [Hi | [ops' ->]].
    - by apply (run_no_channel ops initial).
    - unfold W. rewrite run_app. cbn [fst]. rewrite run_cons. cbn [fst].
      by destruct (terminate_frame (run ops' initial).1) as (_ & _ & _ & _ & _ & ? & ?). }
  destruct Hch. by apply not_loaded_without_channel.
Qed.

(** C3 (amended): the client does have a guard, [if (!_worker)].  While a
    worker exists, a further [initializeWorker] makes no worker, does not
    call the Endpoint's [initialize], leaves every worker as it is, and its
    promise is fulfilled at once with a new bridge object.  Without a worker
    (at first, or after [terminate()]) it makes a new worker; that worker's
    [initialize], called when no sink is passed, does not throw, and with a
    sink the call is rejected before it reaches the worker.  In no state is
    the Endpoint's ["pyodide was already initialized"] the answer: the one
    error [initializeWorker] can end with is the failed clone of a sink. *)
Theorem initializeWorker_again_is_skipped
    (pk : option (list string)) (o : option IoOptions) (W : World) :
  (forall w, _worker W = Some w ->
     initializeWorker pk o W =
       (log_worker_init pk o (allocate W), InitializeWorkerCall (fresh W) Skipped) /\
     workers (initializeWorker pk o W).1 = workers W /\
     forall W', settle W' (initializeWorker pk o W).2 = Fulfilled (Facade (fresh W))) /\
  (_worker W = None ->
     length (workers (initializeWorker pk o W).1) = S (length (workers W)) /\
     (cloneable o = true ->
      (initializeWorker pk o W).2 =
        InitializeWorkerCall (fresh W) (Remote (length (workers W)))) /\
     (cloneable o = false ->
      (initializeWorker pk o W).2 =
        InitializeWorkerCall (fresh W) (Refused data_clone_error))) /\
  (forall id e, (initializeWorker pk o W).2 = InitializeWorkerCall id (Refused e) ->
     e = data_clone_error /\ e <> already_initialized /\
     cloneable o = false /\ _worker W = None).
Proof.
  split; [| split].
  - intros w Hw. by rewrite (initializeWorker_skipped pk o W w Hw).
  - intros Hw.
    destruct (initializeWorker_new pk o W Hw)
      as (st & k & -> & _ & [(Hc & -> & _) | (Hc & -> & _)]);
      (split; [cbn [fst workers set_workers]; rewrite length_app; simpl; lia |]);
      rewrite Hc; by split.
  - intros id e. destruct (_worker W) as [w|] eqn:Hw.
    + by rewrite (initializeWorker_skipped pk o W w Hw).
    + destruct (initializeWorker_new pk o W Hw)
        as (st & k & -> & _ & [(Hc & -> & _) | (Hc & -> & _)]); [done |].
      cbn [snd]. by intros [= _ <-].
Qed.

(** C8: when [runPython] returns [result], [runPythonJson] returns
    [JSON.parse(result)] if [result] is a non-empty string (the parsed value,
    or the error [JSON.parse] throws, as it is), and [null] if [result] is the
    empty string, [null] or [undefined] (in general, whenever [if (result)]
    fails); the world is the one [runPython] left. *)
Theorem runPythonJson_parses_result
    (code : string) (g : option Globals) (ev : Evaluation) (W W' : World)
    (result : Value) :
  runPython code g ev W = (W', Returns result) ->
  (forall s, result = VString s -> s <> "" ->
     (forall json, JSON_parse result = Ok json ->
        runPythonJson JSON_parse code g ev W = (W', Returns json)) /\
     (forall e, JSON_parse result = Throw e ->
        runPythonJson JSON_parse code g ev W = (W', Throws e))) /\
  (result = VString "" \/ result = VNull \/ result = VUndefined ->
     runPythonJson JSON_parse code g ev W = (W', Returns VNull)) /\
  (truthy result = false ->
     runPythonJson JSON_parse code g ev W = (W', Returns VNull)).
Proof.
  intros Hrun. unfold runPythonJson. rewrite Hrun. split; [| split].
  - intros s -> Hs.
    assert (Ht : truthy (VString s) = true).
    { simpl. apply negb_true_iff. by apply String.eqb_neq. }
    rewrite Ht. split; [intros json -> | intros e ->]; done.
  - by intros [-> | [-> | ->]].
  - by intros ->.
Qed.

End ForegroundFacts.

(** ** Concrete runs *)

Section Runs.

Import Worker Foreground.

Lemma coordinator_initializes_once_witness :
  let parse := fun v : Value => Ok v in
  let ops :=
    [GetPyodide None;
     InitializePyodide
       (Some {| debug := Some true; packages := Some ["numpy"];
                on_stdout := Some 0; on_stderr := None |});
     InWorker 0 (LoadSettles (Ok tt));
     Terminate;
     InitializePyodide None] in
  let W := (run parse ops initial).1 in
  let p := AsyncReturn 2 (InitializeWorkerCall 3 (Remote 0)) in
  coordinated ops = true /\ existsb coordinator_call ops = true /\
  length (worker_inits W) = 1 /\ length (workers W) = 1 /\
  pyodide W = Some p /\
  handed_out (run parse ops initial).2 =
    [AsyncReturn 0 (AsyncReturn 1 p); AsyncReturn 4 p; AsyncReturn 5 p] /\
  settle W (AsyncReturn 0 (AsyncReturn 1 p)) = Fulfilled (Facade 3) /\
  settle W (AsyncReturn 5 p) = Fulfilled (Facade 3).
Proof.
  intros parse ops W p.
  destruct (coordinator_initializes_once parse ops eq_refl eq_refl)
    as (Hi & Hw & _).
  split; [reflexivity |]. split; [reflexivity |].
  split; [exact Hi |]. split; [exact Hw |]. by vm_compute.
Defined.

Lemma failed_initialization_is_permanent_witness :
  let parse := fun v : Value => Ok v in
  let e := ErrorObject "Error" "Failed to fetch" in
  let ops1 := [InitializePyodide None; GetPyodide None;
               InWorker 0 (LoadSettles (Throw e))] in
  let ops2 := [InitializePyodide (Some {| debug := None; packages := Some ["numpy"];
                                          on_stdout := None; on_stderr := None |});
               Terminate; GetPyodide None] in
  let p := AsyncReturn 1 (InitializeWorkerCall 2 (Remote 0)) in
  let W1 := (run parse ops1 initial).1 in
  let W2 := (run parse ops2 W1).1 in
  coordinated (ops1 ++ ops2) = true /\ pyodide W1 = Some p /\
  settle W1 p = Rejected e /\
  length (worker_inits W2) = 1 /\
  handed_out ((run parse ops1 initial).2 ++ (run parse ops2 W1).2) =
    [AsyncReturn 0 p; AsyncReturn 3 p; AsyncReturn 4 p; AsyncReturn 5 p] /\
  Forall (fun r => settle W2 r = Rejected e)
    [AsyncReturn 0 p; AsyncReturn 3 p; AsyncReturn 4 p; AsyncReturn 5 p].
Proof.
  intros parse e ops1 ops2 p W1 W2.
  destruct (failed_initialization_is_permanent parse ops1 ops2 p e
              eq_refl eq_refl eq_refl) as (_ & _ & Hi & _ & Hall).
  split; [reflexivity |]. split; [reflexivity |]. split; [reflexivity |].
  split; [exact Hi |]. split; [reflexivity |]. exact Hall.
Defined.


Lemma not_loaded_before_init_and_after_terminate_witness :
  let parse := fun v : Value => Ok v in
  let ops := [InitializePyodide None; InWorker 0 (LoadSettles (Ok tt)); Terminate] in
  let ev := {| written := []; outcome := Ok (VNumber 2) |} in
  let W := (run parse ops initial).1 in
  (worker_inits W = [] \/ exists ops', ops = ops' ++ [Terminate]) /\
  runPython "1 + 1" None ev W = (W, Throws not_loaded) /\
  setOutput (Some 0) W = (W, Throw not_loaded).
Proof.
  intros parse ops ev W.
  assert (H : worker_inits W = [] \/ exists ops', ops = ops' ++ [Terminate]).
  { right. by exists [InitializePyodide None; InWorker 0 (LoadSettles (Ok tt))]. }
  destruct (not_loaded_before_init_and_after_terminate parse ops "1 + 1" None ev
              (Some 0) H) as (H1 & _ & H3).
  split; [exact H |]. split; [exact H1 | exact H3].
Defined.

(** C2, as stated, fails while the promise of [initializeWorker] is pending:
    the worker and the proxy exist from the call on, so [runPython] passes the
    guard and waits in the worker for the load, and [setOutput] registers the
    sink there.  The same holds for a bridge object got from an earlier
    initialization, after [terminate()] and a new [initializeWorker]; and when
    the load has failed, [runPython] rejects with the error of the load. *)
Lemma pending_initialization_is_not_guarded :
  let parse := fun v : Value => Ok v in
  let W := (initializeWorker None None initial).1 in
  let p := (initializeWorker None None initial).2 in
  let ev := {| written := []; outcome := Ok (VNumber 2) |} in
  let again := [InitializeWorker None None; InWorker 0 (LoadSettles (Ok tt));
                Terminate; InitializeWorker None None] in
  let e := ErrorObject "Error" "Failed to fetch" in
  let failed := [InitializeWorker None None; InWorker 0 (LoadSettles (Throw e))] in
  settle W p = Pending /\
  (runPython "1 + 1" None ev W).2 = Awaiting /\
  (runPython "1 + 1" None ev W).2 <> Throws not_loaded /\
  (setOutput (Some 0) W).2 = Ok tt /\
  (endpoint <$> workers (setOutput (Some 0) W).1 !! 0) ≫= _output = Some 0 /\
  (runPython "1 + 1" None ev (run parse again initial).1).2 = Awaiting /\
  (runPython "1 + 1" None ev (run parse failed initial).1).2 = Throws e.
Proof. by vm_compute. Qed.

(** C3, as stated, fails: the second [initializeWorker] on the same client is
    not an error.  Its promise is fulfilled although the first is pending, and
    the worker has seen one [initialize]. *)
Lemma second_initializeWorker_is_fulfilled :
  let W1 := (initializeWorker None None initial).1 in
  let p1 := (initializeWorker None None initial).2 in
  let W2 := (initializeWorker None None W1).1 in
  let p2 := (initializeWorker None None W1).2 in
  settle W2 p1 = Pending /\
  settle W2 p2 = Fulfilled (Facade 1) /\
  workers W2 = workers W1 /\
  (length ∘ loads ∘ endpoint <$> workers W2) = [1].
Proof. by vm_compute. Qed.

Lemma runPythonJson_parses_result_witness :
  let parse := fun v : Value =>
    match v with
    | VString "[]" => Ok (VObject 0)
    | _ => Throw (ErrorObject "SyntaxError" "Unexpected token")
    end in
  let W := (run parse [InitializeWorker None None; InWorker 0 (LoadSettles (Ok tt))]
              initial).1 in
  let good := {| written := []; outcome := Ok (VString "[]") |} in
  let bad := {| written := []; outcome := Ok (VString "oops") |} in
  let none := {| written := []; outcome := Ok VUndefined |} in
  runPython "x" None good W = (W, Returns (VString "[]")) /\
  runPythonJson parse "x" None good W = (W, Returns (VObject 0)) /\
  runPythonJson parse "x" None bad W =
    (W, Throws (ErrorObject "SyntaxError" "Unexpected token")) /\
  runPythonJson parse "pass" None none W = (W, Returns VNull).
Proof.
  intros parse W good bad none.
  destruct (runPythonJson_parses_result parse "x" None good W W (VString "[]")
              eq_refl) as [Hgood _].
  destruct (Hgood "[]" eq_refl ltac:(discriminate)) as [Hok _].
  destruct (runPythonJson_parses_result parse "x" None bad W W (VString "oops")
              eq_refl) as [Hbad _].
  destruct (Hbad "oops" eq_refl ltac:(discriminate)) as [_ Herr].
  destruct (runPythonJson_parses_result parse "pass" None none W W VUndefined
              eq_refl) as (_ & Hnone & _).
  split; [reflexivity |]. split; [exact (Hok _ eq_refl) |].
  split; [exact (Herr _ eq_refl) |]. apply Hnone. by right; right.
Defined.

End Runs.

(** ** More on the Remote Execution Endpoint *)

Section WorkerStreams.

Import Text Worker.

Lemma string_app_assoc (a b c : string) : (a +:+ b) +:+ c = a +:+ b +:+ c.
Proof.
  induction a as [|x a IH]; [done |].
  change (String x ((a +:+ b) +:+ c) = String x (a +:+ b +:+ c)).
  by rewrite IH.
Qed.

(** The first line of a string is a prefix of it. *)
Lemma first_line_prefix (s h : string) (t : list string) :
  split_lines s = h :: t -> exists b, s = h +:+ b.
Proof.
  revert h t. induction s as [|c s IH]; intros h t; simpl.
  - intros [= <- <-]. by exists "".
  - destruct (Ascii.eqb c newline).
    + intros [= <- <-]. by eexists.
    + destruct (split_lines s) as [|h' t'] eqn:Hs.
      * intros [= <- <-]. by exists s.
      * intros [= <- <-]. destruct (IH h' t' eq_refl) as [b ->]. by exists b.
Qed.

(** A line of a string is a substring of it. *)
Lemma line_substring (s l : string) :
  l ∈ split_lines s -> exists a b, s = a +:+ l +:+ b.
Proof.
  revert l. induction s as [|c s IH]; intros l; simpl.
  - intros Hl. apply list_elem_of_singleton in Hl as ->. by exists "", "".
  - destruct (Ascii.eqb c newline) eqn:Hc.
    + intros Hl. apply elem_of_cons in Hl as [-> | Hl].
      * by exists "", (String c s).
      * destruct (IH l Hl) as (a & b & ->). by exists (String c a), b.
    + destruct (split_lines s) as [|h t] eqn:Hs.
      * intros Hl. apply list_elem_of_singleton in Hl as ->.
        exists "", s. simpl. done.
      * intros Hl. apply elem_of_cons in Hl as [-> | Hl].
        -- destruct (first_line_prefix s h t Hs) as [b ->]. by exists "", b.
        -- destruct (IH l) as (a & b & ->); [by right |].
           by exists (String c a), b.
Qed.

Lemma includes_line (s l pat : string) :
  l ∈ split_lines s -> includes l pat = true -> includes s pat = true.
Proof.
  intros Hl Hinc. apply includes_substring in Hinc as (x & y & ->).
  destruct (line_substring s _ Hl) as (a & b & ->).
  apply includes_substring. exists (a +:+ x), (y +:+ b).
  by rewrite !string_app_assoc.
Qed.

Lemma includes_of_starts_with (s pat : string) :
  starts_with pat s = true -> includes s pat = true.
Proof. intros H. destruct s; simpl in *; by rewrite H. Qed.

Lemma includes_cons (c : ascii) (s pat : string) :
  includes s pat = true -> includes (String c s) pat = true.
Proof. intros H. cbn [includes]. rewrite H. apply orb_true_r. Qed.

(** A prefix without a line break is a prefix of the first line. *)
Lemma starts_with_first_line (pat s h : string) (t : list string) :
  one_line pat = true -> starts_with pat s = true ->
  split_lines s = h :: t -> starts_with pat h = true.
Proof.
  revert s h t. induction pat as [|a pat IH]; intros s h t; [done |].
  destruct s as [|b s]; [done |]. cbn [one_line starts_with split_lines].
  rewrite !andb_true_iff, negb_true_iff, Ascii.eqb_eq.
  intros [Ha Hp] [<- Hs]. rewrite Ha.
  destruct (split_lines s) as [|h' t'] eqn:Hsp.
  - by destruct (split_lines_nonempty s).
  - intros [= <- <-]. cbn [starts_with]. rewrite Ascii.eqb_refl. cbn [andb].
    by apply (IH s h' t').
Qed.

(** An occurrence of a text without a line break lies within one line. *)
Lemma includes_some_line (s pat : string) :
  one_line pat = true -> includes s pat = true ->
  exists l, l ∈ split_lines s /\ includes l pat = true.
Proof.
  intros Hpat. induction s as [|c s IH].
  - intros H. exists "". split; [apply list_elem_of_here | done].
  - cbn [includes]. intros H. apply orb_true_iff in H as [H | H].
    + pose proof (split_lines_nonempty (String c s)) as Hne.
      destruct (split_lines (String c s)) as [|h t] eqn:Hsp; [done |].
      exists h. split; [apply list_elem_of_here |].
      apply includes_of_starts_with.
      by apply (starts_with_first_line pat (String c s) h t).
    + destruct (IH H) as (l & Hl & Hinc). cbn [split_lines].
      destruct (Ascii.eqb c newline).
      * exists l. split; [by right | done].
      * destruct (split_lines s) as [|h t]; [by apply elem_of_nil in Hl |].
        apply elem_of_cons in Hl as [-> | Hl].
        -- exists (String c h). split; [apply list_elem_of_here |].
           by apply includes_cons.
        -- exists l. split; [by right | done].
Qed.

(** The lines that the [catch] block keeps, joined and split again, are
    lines without the marker. *)
Lemma kept_lines_clean (message : string) :
  Forall (fun line => includes line exec_marker = false)
    (split_lines
       (join_lines
          (List.filter (fun line => negb (includes line exec_marker))
             (split_lines message)))).
Proof.
  set (kept := List.filter _ _).
  assert (Hkept : Forall (fun line => includes line exec_marker = false) kept).
  { apply Forall_forall. intros l Hl. apply list_elem_of_In in Hl.
    apply List.filter_In in Hl as [_ Hl]. by apply negb_true_iff. }
  assert (Hone : Forall (fun l => one_line l = true) kept).
  { apply Forall_forall. intros l Hl. apply list_elem_of_In in Hl.
    apply List.filter_In in Hl as [Hl _]. apply list_elem_of_In in Hl.
    by eapply (proj1 (Forall_forall _ _) (split_lines_one_line message)). }
  destruct kept as [|l ls] eqn:Hk.
  - simpl. by repeat constructor.
  - by rewrite split_join_lines.
Qed.

(** X4: the message of the error that the [catch] block of [runPython]
    throws for an [Error] does not contain [File "<exec>"] anywhere, whatever
    the message of the caught error was. *)
Theorem cleaned_message_has_no_marker (name message : string) (st : State) :
  exists cleaned,
    (on_error (ErrorObject name message) st).2 =
      Throws (ErrorObject "Error" cleaned) /\
    includes cleaned exec_marker = false /\
    forall a b, cleaned <> a +:+ exec_marker +:+ b.
Proof.
  eexists. split; [reflexivity |].
  set (cleaned := join_lines _).
  assert (Hno : includes cleaned exec_marker = false).
  { destruct (includes cleaned exec_marker) eqn:Hinc; [| done].
    destruct (includes_some_line cleaned exec_marker eq_refl Hinc)
      as (l & Hl & Hlinc).
    pose proof (proj1 (Forall_forall _ _) (kept_lines_clean message) l Hl) as H.
    simpl in H. congruence. }
  split; [done |]. intros a b Heq.
  assert (includes cleaned exec_marker = true)
    by (apply includes_substring; by exists a, b).
  congruence.
Qed.

(** X5: an [Error] whose message does not contain [File "<exec>"] is passed
    on with its message unchanged (as a plain [Error]), and the registered
    sink, if any, gets that message. *)
Theorem marker_free_message_unchanged (name message : string) (st : State) :
  includes message exec_marker = false ->
  on_error (ErrorObject name message) st =
  (call (_output st) message st, Throws (ErrorObject "Error" message)).
Proof.
  intros Hno. cbn [on_error].
  assert (Hall : List.filter (fun line => negb (includes line exec_marker))
                   (split_lines message) = split_lines message).
  { apply List.forallb_filter_id. apply List.forallb_forall. intros l Hl.
    apply list_elem_of_In in Hl. apply negb_true_iff.
    destruct (includes l exec_marker) eqn:Hinc; [| done].
    pose proof (includes_line message l exec_marker Hl Hinc). congruence. }
  by rewrite Hall, join_split_lines.
Qed.

End WorkerStreams.

Section WorkerLifecycle.

Import Text Worker.

Lemma write_exact (s : Stream) (msg : string) (st : State)
    (pk : list string) (o : option IoOptions)
    (rest : list (list string * option IoOptions)) :
  loads st = (pk, o) :: rest ->
  calls (write s msg st) = calls st ++ chunk_deliveries o (_output st) (s, msg).
Proof.
  intros Hl. unfold write, chunk_deliveries, sink_of. rewrite Hl.
  destruct s; unfold stdout_handler, stderr_handler; rewrite calls_handler;
    cbn [fst snd]; f_equal; f_equal.
  - by destruct (o ≫= stdout).
  - by destruct (_output st).
  - by destruct (o ≫= stderr).
  - by destruct (_output st).
Qed.

Lemma writes_exact (chunks : list (Stream * string)) (st : State)
    (pk : list string) (o : option IoOptions)
    (rest : list (list string * option IoOptions)) :
  loads st = (pk, o) :: rest ->
  calls (writes chunks st) =
  calls st ++ flat_map (chunk_deliveries o (_output st)) chunks.
Proof.
  revert st. induction chunks as [|[s msg] chunks IH]; intros st Hl.
  - simpl. by rewrite app_nil_r.
  - cbn [writes fold_left flat_map fst snd].
    destruct (write_frame s msg st) as (_ & Ho & Hl').
    fold (writes chunks (write s msg st)).
    rewrite (IH (write s msg st)) by (by rewrite Hl').
    rewrite Ho, (write_exact s msg st pk o rest Hl). by rewrite app_assoc.
Qed.

(** X1: when the engine is loaded and the evaluation ends with a value,
    [runPython] returns that value as it is, and by then every chunk the
    evaluation wrote has been delivered, in write order: first to the sink
    given to [initialize] for its stream, then to the registered sink.
    Nothing else of the worker changes. *)
Theorem runPython_streams_then_returns
    (code : string) (globals : option Globals) (ev : Evaluation) (st : State)
    (u : unit) (v : Value) (pk : list string) (o : option IoOptions)
    (rest : list (list string * option IoOptions)) :
  _pyodideReady st = Some (Fulfilled u) ->
  loads st = (pk, o) :: rest ->
  outcome ev = Ok v ->
  let st' := (runPython code globals ev st).1 in
  (runPython code globals ev st).2 = Returns v /\
  calls st' = calls st ++ flat_map (chunk_deliveries o (_output st)) (written ev) /\
  _output st' = _output st /\ _pyodideReady st' = _pyodideReady st /\
  loads st' = loads st.
Proof.
  intros Hr Hl Hout st'. subst st'. unfold runPython. rewrite Hr, Hout.
  cbn [fst snd]. destruct (writes_frame (written ev) st) as (-> & -> & ->).
  by rewrite (writes_exact _ st pk o rest Hl).
Qed.

Lemma runPython_streams_then_returns_witness :
  let io := {| stdout := Some 0; stderr := None |} in
  let st := run [Initialize None (Some io); Happens (LoadSettles (Ok tt));
                 SetOutput (Some 1)] initial in
  let ev := {| written := [(Stdout, "a"); (Stderr, "b"); (Stdout, "c")];
               outcome := Ok (VNumber 7) |} in
  _pyodideReady st = Some (Fulfilled tt) /\ loads st = [([], Some io)] /\
  (runPython "x" None ev st).2 = Returns (VNumber 7) /\
  calls (runPython "x" None ev st).1 =
    [(0, "a"); (1, "a"); (1, "b"); (0, "c"); (1, "c")].
Proof.
  intros io st ev.
  destruct (runPython_streams_then_returns "x" None ev st tt (VNumber 7) []
              (Some io) [] eq_refl eq_refl eq_refl) as (H1 & H2 & _).
  split; [reflexivity |]. split; [reflexivity |]. split; [exact H1 | exact H2].
Defined.

(** X2: the sinks given to the first [initialize] are the ones the engine
    writes to for the whole life of the worker.  Whatever happens after that
    call ([setOutput], further [initialize] calls with other options,
    evaluations, the load settling), the engine has been started once, with
    the packages and options of that call, and a chunk goes to the sink these
    options name for its stream and then to the registered sink. *)
Theorem initialize_sinks_are_permanent
    (evs1 : list Event) (packages : option (list string))
    (options : option IoOptions) (evs2 : list Event) (s : Stream) (msg : string) :
  _pyodideReady (run evs1 initial) = None ->
  let st := run evs2 (step (Initialize packages options) (run evs1 initial)) in
  loads st = [(default [] packages, options)] /\
  calls (write s msg st) =
    calls st ++ chunk_deliveries options (_output st) (s, msg).
Proof.
  intros Hnone st.
  destruct (run_loaded_once evs1 initial eq_refl) as [Hinv0 _].
  set (st0 := run evs1 initial) in *.
  assert (Hl0 : loads st0 = []) by (unfold loaded_once in Hinv0; by rewrite Hnone in Hinv0).
  set (st1 := step (Initialize packages options) st0) in *.
  assert (Hst1 : loads st1 = [(default [] packages, options)] /\ _pyodideReady st1 <> None).
  { unfold st1. cbn [step]. unfold initialize. rewrite Hnone.
    cbn [fst _loadPyodide loads _pyodideReady]. by rewrite Hl0. }
  destruct Hst1 as [Hl1 Hr1].
  destruct (step_loaded_once (Initialize packages options) st0 Hinv0) as [Hinv1 _].
  destruct (run_loaded_once evs2 st1 Hinv1) as [_ H].
  destruct (H Hr1) as [_ Hl]. fold st in Hl.
  assert (Hloads : loads st = [(default [] packages, options)]) by congruence.
  split; [done |]. by apply (write_exact s msg st (default [] packages) options []).
Qed.

Lemma initialize_sinks_are_permanent_witness :
  let io := {| stdout := Some 0; stderr := Some 1 |} in
  let other := {| stdout := Some 8; stderr := Some 9 |} in
  let evs2 := [SetOutput (Some 2); Initialize (Some ["numpy"]) (Some other);
               Happens (LoadSettles (Ok tt)); SetOutput None] in
  let st := run evs2 (step (Initialize None (Some io)) (run [SetOutput (Some 5)] initial)) in
  _pyodideReady (run [SetOutput (Some 5)] initial) = None /\
  loads st = [([], Some io)] /\
  calls (write Stderr "e" st) = calls st ++ [(1, "e")].
Proof.
  intros io other evs2 st.
  destruct (initialize_sinks_are_permanent [SetOutput (Some 5)] None (Some io)
              evs2 Stderr "e" eq_refl) as [H1 H2].
  split; [reflexivity |]. split; [exact H1 | exact H2].
Defined.

Lemma step_settled (e : Event) (st : State) (s : PromiseState unit) :
  _pyodideReady st = Some s -> s <> Pending ->
  _pyodideReady (step e st) = Some s.
Proof.
  intros Hr Hs. destruct e as [pk o | code g ev | cb | [r | c msg]];
    cbn [step happen].
  - unfold initialize. by rewrite Hr.
  - by destruct (runPython_deliveries code g ev st) as (-> & _).
  - done.
  - unfold settle_load. rewrite Hr. by destruct s.
  - by destruct (write_frame c msg st) as (-> & _).
Qed.

Lemma run_settled (evs : list Event) (st : State) (s : PromiseState unit) :
  _pyodideReady st = Some s -> s <> Pending ->
  _pyodideReady (run evs st) = Some s.
Proof.
  revert st. induction evs as [|e evs IH]; intros st Hr Hs; [done |].
  change (run (e :: evs) st) with (run evs (step e st)).
  apply IH; [by apply step_settled | done].
Qed.

(** X3: the promise of the load settles once.  When the load has failed with
    [e], then, whatever happens afterwards, every [runPython] is rejected
    with that same [e] at [await _pyodideReady]: nothing is evaluated, no
    sink is called and the state of the worker stays as it is. *)
Theorem failed_load_rejects_every_run
    (evs : list Event) (st : State) (e : Thrown)
    (code : string) (globals : option Globals) (ev : Evaluation) :
  _pyodideReady st = Some (Rejected e) ->
  _pyodideReady (run evs st) = Some (Rejected e) /\
  runPython code globals ev (run evs st) = (run evs st, Throws e).
Proof.
  intros Hr.
  assert (H : _pyodideReady (run evs st) = Some (Rejected e))
    by (by apply run_settled).
  split; [done |]. unfold runPython. by rewrite H.
Qed.

Lemma failed_load_rejects_every_run_witness :
  let e := ErrorObject "Error" "Failed to fetch" in
  let st := run [Initialize (Some ["numpy"]) None; Happens (LoadSettles (Throw e))]
              initial in
  let evs := [Happens (LoadSettles (Ok tt)); SetOutput (Some 1);
              Initialize None None] in
  let ev := {| written := [(Stdout, "a")]; outcome := Ok (VNumber 2) |} in
  _pyodideReady st = Some (Rejected e) /\
  runPython "1 + 1" None ev (run evs st) = (run evs st, Throws e).
Proof.
  intros e st evs ev.
  destruct (failed_load_rejects_every_run evs st e "1 + 1" None ev eq_refl)
    as [_ H].
  split; [reflexivity | exact H].
Defined.

End WorkerLifecycle.

(** ** More on the foreground *)

Section ClientInvariant.

Import Worker Foreground.

Variable JSON_parse : Value -> Result Value.

Local Abbreviation exec := (Foreground.exec JSON_parse).
Local Abbreviation run := (Foreground.run JSON_parse).

Lemma well_formed_initial : well_formed initial.
Proof. repeat split; try done; intros w c H; by rewrite lookup_nil in H. Qed.

(** [well_formed] looks at [_worker], [_runner] and [workers] only. *)
Lemma well_formed_ext (W W' : World) :
  _worker W' = _worker W -> _runner W' = _runner W -> workers W' = workers W ->
  well_formed W -> well_formed W'.
Proof. unfold well_formed. by intros -> -> ->. Qed.

(** An event other than a call of [initialize] leaves the engine of the
    worker, if there is one, and its handlers as they are. *)
Lemma endpoint_step (e : Event) (st : State) :
  match e with Initialize _ _ => False | _ => True end ->
  loaded_once st -> init_sinks st = [] ->
  loaded_once (step e st) /\ init_sinks (step e st) = [] /\
  loads (step e st) = loads st.
Proof.
  intros He Hinv Hs.
  destruct (step_loaded_once e st Hinv) as [Hinv' _].
  assert (Hl : loads (step e st) = loads st).
  { destruct e as [pk o | code g ev | cb | [r | s msg]]; [done | | done | |];
      cbn [step happen].
    - by destruct (runPython_deliveries code g ev st) as (_ & _ & -> & _).
    - unfold settle_load. by destruct (_pyodideReady st) as [[| |]|].
    - by destruct (write_frame s msg st) as (_ & _ & ->). }
  split; [done |]. split; [| done]. by rewrite (init_sinks_loads _ _ Hl).
Qed.

(** What such an event does to a worker whose handlers have no sink. *)
Lemma quiet_step (e : Event) (st : State) :
  match e with Initialize _ _ => False | _ => True end ->
  loaded_once st -> init_sinks st = [] ->
  loads (step e st) = loads st /\
  (_pyodideReady (step e st) = None <-> _pyodideReady st = None) /\
  (keeps_sink e = true -> _output (step e st) = _output st) /\
  exists ds, calls (step e st) = calls st ++ ds /\
             Forall (fun d => Some d.1 = _output st) ds.
Proof.
  intros He Hinv Hs.
  assert (Hnil : exists ds, calls st = calls st ++ ds /\
                   Forall (fun d => Some d.1 = _output st) ds)
    by (exists []; by rewrite app_nil_r).
  assert (Hacc : forall ds, Forall (accounted (_output st) (init_sinks st)) ds ->
                            Forall (fun d => Some d.1 = _output st) ds).
  { intros ds H. eapply Forall_impl; [exact H |].
    intros d [Hd | Hd]; [done |]. rewrite Hs in Hd. by apply elem_of_nil in Hd. }
  destruct e as [pk o | code g ev | cb | [r | s msg]]; [done | | | |];
    cbn [step happen].
  - destruct (runPython_deliveries code g ev st) as (Hr & Ho & Hl & ds & Hc & Hd).
    split; [done |]. split; [by rewrite Hr |]. split; [done |].
    exists ds. split; [done | by apply Hacc].
  - by repeat split.
  - unfold settle_load.
    destruct (_pyodideReady st) as [[|u|e]|] eqn:Hr; cbn; rewrite ?Hr;
      by repeat split.
  - destruct (write_frame s msg st) as (Hr & Ho & Hl).
    destruct (write_deliveries s msg st) as (ds & Hc & Hd).
    split; [done |]. split; [by rewrite Hr |]. split; [done |].
    exists ds. split; [done | by apply Hacc].
Qed.

(** The state of one worker changes, not its [terminated] flag. *)
Lemma well_formed_update (W : World) (r : nat) (c c' : WorkerCell) :
  well_formed W -> workers W !! r = Some c ->
  terminated c' = terminated c ->
  loaded_once (endpoint c') -> init_sinks (endpoint c') = [] ->
  well_formed (set_workers (<[r := c']> (workers W)) W).
Proof.
  intros (Hch & Hlive & Hdead & Hload) Hc Ht Hr Hl.
  assert (Hlt : r < length (workers W)) by (by eapply lookup_lt_Some).
  unfold well_formed. cbn [_worker _runner workers set_workers].
  split; [done |]. split; [| split].
  - intros w Hw. destruct (Hlive w Hw) as (c0 & Hc0 & Ht0).
    destruct (decide (r = w)) as [-> | Hne].
    + exists c'. rewrite list_lookup_insert_eq by done. split; [done |]. congruence.
    + exists c0. by rewrite list_lookup_insert_ne.
  - intros w c0 Hc0 Hw. destruct (decide (r = w)) as [-> | Hne].
    + rewrite list_lookup_insert_eq in Hc0 by done. injection Hc0 as <-.
      rewrite Ht. by apply (Hdead w c).
    + rewrite list_lookup_insert_ne in Hc0 by done. by apply (Hdead w c0).
  - intros w c0 Hc0. destruct (decide (r = w)) as [-> | Hne].
    + rewrite list_lookup_insert_eq in Hc0 by done. by injection Hc0 as <-.
    + rewrite list_lookup_insert_ne in Hc0 by done. by apply (Hload w c0).
Qed.

Lemma remote_well_formed {A : Type} (r : nat) (e : Event)
    (f : Worker.State -> Worker.State * A) (W W' : World) (a : A) :
  match e with Initialize _ _ => False | _ => True end ->
  (forall st, (f st).1 = step e st) ->
  well_formed W -> remote r f W = Some (W', a) -> well_formed W'.
Proof.
  intros He Hf Hwf. unfold remote.
  destruct (workers W !! r) as [c|] eqn:Hc; simpl; [| done].
  pose proof (Hf (endpoint c)) as Hst.
  destruct (f (endpoint c)) as [st a']. intros [= <- <-]. cbn [fst] in Hst.
  pose proof Hwf as (Hch & Hlive & Hdead & Hload).
  destruct (Hload r c Hc) as [Hr Hl].
  destruct (endpoint_step e (endpoint c) He Hr Hl) as (Hr' & Hl' & _).
  eapply well_formed_update; [exact Hwf | exact Hc | done | |];
    cbn [endpoint]; by rewrite Hst.
Qed.

Lemma runPython_well_formed (code : string) (g : option Globals)
    (ev : Evaluation) (W : World) :
  well_formed W -> well_formed (runPython code g ev W).1.
Proof.
  intros Hwf. unfold runPython.
  destruct (_worker W), (_runner W) as [r|]; try done.
  destruct (remote r _ W) as [[W1 v]|] eqn:Hr; [| done].
  by eapply (remote_well_formed r (Worker.RunPython code g ev)); [| | done | exact Hr].
Qed.

Lemma setOutput_well_formed (cb : option Sink) (W : World) :
  well_formed W -> well_formed (setOutput cb W).1.
Proof.
  intros Hwf. unfold setOutput. destruct (_runner W) as [r|]; [| done].
  destruct (remote r _ W) as [[W1 v]|] eqn:Hr; [| done].
  by eapply (remote_well_formed r (Worker.SetOutput cb)); [| | done | exact Hr].
Qed.

Lemma in_worker_well_formed (w : nat) (h : Happening) (W : World) :
  well_formed W -> well_formed (in_worker w h W).
Proof.
  intros Hwf. unfold in_worker.
  destruct (workers W !! w) as [c|] eqn:Hc; [| done].
  destruct (terminated c) eqn:Ht; [done |].
  pose proof Hwf as (Hch & Hlive & Hdead & Hload).
  destruct (Hload w c Hc) as [Hr Hl].
  destruct (endpoint_step (Happens h) (endpoint c) I Hr Hl) as (Hr' & Hl' & _).
  by eapply well_formed_update; [exact Hwf | exact Hc | ..].
Qed.

Lemma terminate_well_formed (W : World) :
  well_formed W -> well_formed (terminate W).
Proof.
  intros (Hch & Hlive & Hdead & Hload). unfold terminate, well_formed.
  cbn [_worker _runner workers set_workers set_channel].
  split; [done |]. split; [done |].
  destruct (_worker W) as [w0|] eqn:Hw0.
  - split.
    + intros w c Hc _. destruct (decide (w0 = w)) as [-> | Hne].
      * rewrite list_lookup_alter_eq in Hc.
        destruct (workers W !! w); [| done]. by injection Hc as <-.
      * rewrite list_lookup_alter_ne in Hc by done.
        apply (Hdead w c Hc). congruence.
    + intros w c Hc. destruct (decide (w0 = w)) as [-> | Hne].
      * rewrite list_lookup_alter_eq in Hc.
        destruct (workers W !! w) as [c0|] eqn:Hc0; [| done].
        injection Hc as <-. by apply (Hload w c0).
      * rewrite list_lookup_alter_ne in Hc by done. by apply (Hload w c).
  - split; [| done]. intros w c Hc _. by apply (Hdead w c).
Qed.

Lemma initializeWorker_well_formed (pk : option (list string))
    (o : option IoOptions) (W : World) :
  well_formed W -> well_formed (initializeWorker pk o W).1.
Proof.
  intros Hwf. destruct (_worker W) as [w|] eqn:Hw.
  - rewrite (initializeWorker_skipped pk o W w Hw). by eapply well_formed_ext.
  - destruct (initializeWorker_new pk o W Hw)
      as (st & k & -> & (_ & _ & Hr & Hl) & _).
    destruct Hwf as (Hch & Hlive & Hdead & Hload).
    unfold well_formed.
    cbn [fst _worker _runner workers set_workers set_channel log_worker_init allocate].
    split; [done |]. split; [| split].
    + intros w [= <-]. eexists. by rewrite list_lookup_middle.
    + intros w c Hc Hne.
      apply lookup_app_Some in Hc as [Hc | [Hge Hc]].
      * apply (Hdead w c Hc). by rewrite Hw.
      * destruct (w - length (workers W)) as [|n] eqn:Hn; [| done].
        destruct Hne. f_equal. lia.
    + intros w c Hc.
      apply lookup_app_Some in Hc as [Hc | [Hge Hc]]; [by apply (Hload w c) |].
      destruct (w - length (workers W)) as [|n]; [| done].
      injection Hc as <-. by cbn [endpoint].
Qed.

Lemma initializePyodide_well_formed (o : option InitOptions) (W : World) :
  well_formed W -> well_formed (initializePyodide o W).1.
Proof.
  intros Hwf. destruct (pyodide W) as [p|] eqn:Hp.
  - rewrite (initializePyodide_recorded o W p Hp). by eapply well_formed_ext.
  - unfold initializePyodide, _initializePyodide.
    cbn [pyodide setDebug allocate]. rewrite Hp.
    match goal with
    | |- context [initializeWorker ?pk ?wo ?W0] =>
        assert (H : well_formed (initializeWorker pk wo W0).1)
          by (apply initializeWorker_well_formed; by eapply well_formed_ext);
        destruct (initializeWorker pk wo W0) as [W1 p1]
    end.
    by eapply well_formed_ext.
Qed.

Lemma getPyodide_well_formed (o : option IoOptions) (W : World) :
  well_formed W -> well_formed (getPyodide o W).1.
Proof.
  intros Hwf. destruct (pyodide W) as [p|] eqn:Hp.
  - rewrite (getPyodide_recorded o W p Hp). by eapply well_formed_ext.
  - unfold getPyodide. cbn [pyodide allocate]. rewrite Hp.
    match goal with
    | |- context [initializePyodide ?o' ?W0] =>
        assert (H : well_formed (initializePyodide o' W0).1)
          by (apply initializePyodide_well_formed; by eapply well_formed_ext);
        destruct (initializePyodide o' W0) as [W1 p1]
    end.
    done.
Qed.

Lemma exec_well_formed (op : Op) (W : World) :
  well_formed W -> well_formed (exec op W).1.
Proof.
  intros Hwf.
  destruct op as [o | o | pk o | code g ev | code g ev | cb | | w h];
    cbn [Foreground.exec].
  - pose proof (initializePyodide_well_formed o W Hwf).
    by destruct (initializePyodide o W).
  - pose proof (getPyodide_well_formed o W Hwf). by destruct (getPyodide o W).
  - pose proof (initializeWorker_well_formed pk o W Hwf).
    by destruct (initializeWorker pk o W).
  - pose proof (runPython_well_formed code g ev W Hwf).
    by destruct (runPython code g ev W).
  - pose proof (runPython_well_formed code g ev W Hwf) as H.
    rewrite <- (runPythonJson_world JSON_parse) in H.
    by destruct (runPythonJson JSON_parse code g ev W).
  - pose proof (setOutput_well_formed cb W Hwf). by destruct (setOutput cb W).
  - by apply terminate_well_formed.
  - by apply in_worker_well_formed.
Qed.

Lemma run_well_formed (ops : list Op) (W : World) :
  well_formed W -> well_formed (run ops W).1.
Proof.
  revert W. induction ops as [|op ops IH]; intros W Hwf; [done |].
  rewrite run_cons. cbn [fst]. apply IH. by apply exec_well_formed.
Qed.

End ClientInvariant.

Section ClientFacts.

Import Worker Foreground.

Variable JSON_parse : Value -> Result Value.

Local Abbreviation exec := (Foreground.exec JSON_parse).
Local Abbreviation run := (Foreground.run JSON_parse).

(** X6: in every state the client can reach, [_worker] and [_runner] are
    both [null] or both set, and when set they stand for a worker that
    exists and was not terminated: the guard [!_worker || !_runner] of
    [runPython] and the guard [!_runner] of [setOutput] never disagree, and
    a forwarded call always has a worker to go to. *)
Theorem client_channel_is_consistent (ops : list Op) :
  let W := (run ops initial).1 in
  _worker W = _runner W /\
  forall w, _worker W = Some w ->
    exists c, workers W !! w = Some c /\ terminated c = false.
Proof.
  intros W.
  destruct (run_well_formed JSON_parse ops initial well_formed_initial)
    as (Hch & Hlive & _).
  split; [done |]. intros w Hw. destruct (Hlive w Hw) as (c & Hc & Ht).
  by exists c.
Qed.

(** X7: the client never has two workers alive: of the workers it has made,
    at most one is not terminated.  And no worker it has made has started
    the engine more than once, or with a sink for its handlers: a worker
    whose [initialize] was reached has one engine, a worker whose
    [initialize] was not reached (the call carried a sink) has none. *)
Theorem at_most_one_live_worker (ops : list Op) :
  let W := (run ops initial).1 in
  (forall w1 w2 c1 c2,
     workers W !! w1 = Some c1 -> workers W !! w2 = Some c2 ->
     terminated c1 = false -> terminated c2 = false -> w1 = w2) /\
  Forall (fun c => length (loads (endpoint c)) <= 1 /\
                   (_pyodideReady (endpoint c) <> None ->
                    length (loads (endpoint c)) = 1) /\
                   (_pyodideReady (endpoint c) = None -> loads (endpoint c) = []) /\
                   init_sinks (endpoint c) = []) (workers W).
Proof.
  intros W.
  destruct (run_well_formed JSON_parse ops initial well_formed_initial)
    as (_ & _ & Hdead & Hload).
  split.
  - intros w1 w2 c1 c2 H1 H2 Ht1 Ht2.
    destruct (decide (_worker W = Some w1)) as [Hw1 | Hw1].
    + destruct (decide (_worker W = Some w2)) as [Hw2 | Hw2]; [congruence |].
      pose proof (Hdead w2 c2 H2 Hw2). congruence.
    + pose proof (Hdead w1 c1 H1 Hw1). congruence.
  - apply Forall_forall. intros c Hc.
    apply list_elem_of_lookup in Hc as [w Hc].
    destruct (Hload w c Hc) as [Hl Hs]. unfold loaded_once in Hl.
    destruct (_pyodideReady (endpoint c)); [rewrite Hl | rewrite Hl; simpl];
      repeat split; try done; lia.
Qed.

(** *** A terminated worker *)

Lemma initializeWorker_appends (pk : option (list string)) (o : option IoOptions)
    (W : World) :
  exists cs, workers (initializeWorker pk o W).1 = workers W ++ cs /\
    Forall (fun c => _output (endpoint c) = None /\ calls (endpoint c) = []) cs.
Proof.
  destruct (_worker W) as [w|] eqn:Hw.
  - rewrite (initializeWorker_skipped pk o W w Hw). exists []. by rewrite app_nil_r.
  - destruct (initializeWorker_new pk o W Hw)
      as (st & k & -> & (Hc & Ho & _) & _).
    eexists. split; [reflexivity |]. by apply Forall_singleton.
Qed.

Lemma initializePyodide_appends (o : option InitOptions) (W : World) :
  exists cs, workers (initializePyodide o W).1 = workers W ++ cs /\
    Forall (fun c => _output (endpoint c) = None /\ calls (endpoint c) = []) cs.
Proof.
  destruct (pyodide W) as [p|] eqn:Hp.
  - rewrite (initializePyodide_recorded o W p Hp). exists []. by rewrite app_nil_r.
  - unfold initializePyodide, _initializePyodide.
    cbn [pyodide setDebug allocate]. rewrite Hp.
    match goal with
    | |- context [initializeWorker ?pk ?wo ?W0] =>
        destruct (initializeWorker_appends pk wo W0) as [cs H];
        destruct (initializeWorker pk wo W0) as [W1 p1]
    end.
    by exists cs.
Qed.

Lemma getPyodide_appends (o : option IoOptions) (W : World) :
  exists cs, workers (getPyodide o W).1 = workers W ++ cs /\
    Forall (fun c => _output (endpoint c) = None /\ calls (endpoint c) = []) cs.
Proof.
  destruct (pyodide W) as [p|] eqn:Hp.
  - rewrite (getPyodide_recorded o W p Hp). exists []. by rewrite app_nil_r.
  - unfold getPyodide. cbn [pyodide allocate]. rewrite Hp.
    match goal with
    | |- context [initializePyodide ?o' ?W0] =>
        destruct (initializePyodide_appends o' W0) as [cs H];
        destruct (initializePyodide o' W0) as [W1 p1]
    end.
    by exists cs.
Qed.

Lemma remote_frozen {A : Type} (r : nat) (f : Worker.State -> Worker.State * A)
    (W W' : World) (a : A) (w : nat) (c : WorkerCell) :
  well_formed W -> _runner W = Some r ->
  workers W !! w = Some c -> terminated c = true ->
  remote r f W = Some (W', a) -> workers W' !! w = Some c.
Proof.
  intros (Hch & Hlive & _) Hrun Hc Ht. unfold remote.
  destruct (workers W !! r) as [c0|] eqn:Hc0; simpl; [| done].
  destruct (f (endpoint c0)) as [st a']. intros [= <- <-].
  cbn [workers set_workers].
  destruct (Hlive r) as (c1 & Hc1 & Ht1); [congruence |].
  rewrite list_lookup_insert_ne; [done |]. intros ->. congruence.
Qed.

Lemma exec_frozen (op : Op) (W : World) (w : nat) (c : WorkerCell) :
  well_formed W -> workers W !! w = Some c -> terminated c = true ->
  workers (exec op W).1 !! w = Some c.
Proof.
  intros Hwf Hc Ht.
  destruct op as [o | o | pk o | code g ev | code g ev | cb | | w' h];
    cbn [Foreground.exec].
  - destruct (initializePyodide_appends o W) as (cs & H & _).
    destruct (initializePyodide o W) as [W1 p1]. cbn [fst] in *.
    rewrite H. by apply lookup_app_l_Some.
  - destruct (getPyodide_appends o W) as (cs & H & _).
    destruct (getPyodide o W) as [W1 p1]. cbn [fst] in *.
    rewrite H. by apply lookup_app_l_Some.
  - destruct (initializeWorker_appends pk o W) as (cs & H & _).
    destruct (initializeWorker pk o W) as [W1 p1]. cbn [fst] in *.
    rewrite H. by apply lookup_app_l_Some.
  - assert (H : workers (runPython code g ev W).1 !! w = Some c).
    { unfold runPython.
      destruct (_worker W), (_runner W) as [r|] eqn:Hrun; try done.
      destruct (remote r _ W) as [[W1 v]|] eqn:Hr; [| done].
      by eapply remote_frozen. }
    by destruct (runPython code g ev W).
  - assert (H : workers (runPython code g ev W).1 !! w = Some c).
    { unfold runPython.
      destruct (_worker W), (_runner W) as [r|] eqn:Hrun; try done.
      destruct (remote r _ W) as [[W1 v]|] eqn:Hr; [| done].
      by eapply remote_frozen. }
    rewrite <- (runPythonJson_world JSON_parse) in H.
    by destruct (runPythonJson JSON_parse code g ev W).
  - assert (H : workers (setOutput cb W).1 !! w = Some c).
    { unfold setOutput. destruct (_runner W) as [r|] eqn:Hrun; [| done].
      destruct (remote r _ W) as [[W1 v]|] eqn:Hr; [| done].
      by eapply remote_frozen. }
    by destruct (setOutput cb W).
  - cbn [fst]. unfold terminate. cbn [workers set_workers set_channel].
    destruct (_worker W) as [w0|] eqn:Hw0; [| done].
    destruct Hwf as (_ & Hlive & _). destruct (Hlive w0 Hw0) as (c0 & Hc0 & Ht0).
    rewrite list_lookup_alter_ne; [done |]. intros ->. congruence.
  - cbn [fst]. unfold in_worker.
    destruct (workers W !! w') as [c'|] eqn:Hc'; [| done].
    destruct (terminated c') eqn:Ht'; [done |].
    cbn [workers set_workers]. rewrite list_lookup_insert_ne; [done |].
    intros ->. congruence.
Qed.

Lemma run_frozen (ops : list Op) (W : World) (w : nat) (c : WorkerCell) :
  well_formed W -> workers W !! w = Some c -> terminated c = true ->
  workers (run ops W).1 !! w = Some c.
Proof.
  revert W. induction ops as [|op ops IH]; intros W Hwf Hc Ht; [done |].
  rewrite run_cons. cbn [fst].
  apply IH; [by apply exec_well_formed | by apply exec_frozen | done].
Qed.

(** X8: [terminate()] stops the current worker for good.  The worker keeps
    the state it had at that moment, and nothing that is done afterwards
    (calls of the Coordinator or of the client, a new [initializeWorker],
    events addressed to it) changes that state or makes it call a sink
    again. *)
Theorem terminated_worker_is_frozen (ops1 ops2 : list Op) (w : nat) :
  let W1 := (run ops1 initial).1 in
  _worker W1 = Some w ->
  exists c, workers W1 !! w = Some c /\
    workers (run ops2 (terminate W1)).1 !! w =
      Some {| terminated := true; endpoint := endpoint c |}.
Proof.
  intros W1 Hw.
  pose proof (run_well_formed JSON_parse ops1 initial well_formed_initial) as Hwf.
  fold W1 in Hwf. pose proof Hwf as (_ & Hlive & _).
  destruct (Hlive w Hw) as (c & Hc & Ht). exists c. split; [done |].
  apply run_frozen; [by apply terminate_well_formed | | done].
  unfold terminate. cbn [workers set_workers set_channel]. rewrite Hw.
  by rewrite list_lookup_alter_eq, Hc.
Qed.

(** *** The Coordinator after [terminate] *)

Lemma exec_stays_terminated (op : Op) (W : World) (p : Promise) :
  direct_init op = false ->
  pyodide W = Some p -> _worker W = None -> _runner W = None ->
  pyodide (exec op W).1 = Some p /\ _worker (exec op W).1 = None /\
  _runner (exec op W).1 = None /\
  length (workers (exec op W).1) = length (workers W).
Proof.
  intros Hd Hp Hw Hr. destruct (coordinator_call op) eqn:Hc.
  - destruct op as [o | o | | | | | |]; try done; cbn [Foreground.exec].
    + by rewrite (initializePyodide_recorded o W p Hp).
    + by rewrite (getPyodide_recorded o W p Hp).
  - destruct (other_op_frame JSON_parse op W Hc Hd) as (-> & _ & -> & H & _).
    destruct (H Hw Hr). by repeat split.
Qed.

Lemma run_stays_terminated (ops : list Op) (W : World) (p : Promise) :
  coordinated ops = true ->
  pyodide W = Some p -> _worker W = None -> _runner W = None ->
  pyodide (run ops W).1 = Some p /\ _worker (run ops W).1 = None /\
  _runner (run ops W).1 = None /\
  length (workers (run ops W).1) = length (workers W).
Proof.
  revert W. induction ops as [|op ops IH]; intros W Hd Hp Hw Hr; [done |].
  cbn [coordinated forallb] in Hd. apply andb_true_iff in Hd as [Hd Hds].
  apply negb_true_iff in Hd. rewrite run_cons. cbn [fst].
  destruct (exec_stays_terminated op W p Hd Hp Hw Hr) as (Hp1 & Hw1 & Hr1 & Hl1).
  destruct (IH _ Hds Hp1 Hw1 Hr1) as (? & ? & ? & Hl2).
  repeat split; try done. congruence.
Qed.

(** X9: the Coordinator never builds a second bridge.  Once a promise is
    recorded and the bridge has been terminated, every later
    [initializePyodide] or [getPyodide] still hands out the recorded promise,
    no worker is made, and [runPython], [runPythonJson] and [setOutput] keep
    failing with ["pyodide isn't loaded yet"]. *)
Theorem coordinator_never_revives_bridge
    (ops1 ops2 : list Op) (p : Promise)
    (code : string) (g : option Globals) (ev : Evaluation) (cb : option Sink) :
  let W1 := (run (ops1 ++ [Terminate]) initial).1 in
  pyodide W1 = Some p ->
  coordinated ops2 = true ->
  let W2 := (run ops2 W1).1 in
  pyodide W2 = Some p /\
  length (workers W2) = length (workers W1) /\
  Forall (fun r => exists id, r = AsyncReturn id p) (handed_out (run ops2 W1).2) /\
  runPython code g ev W2 = (W2, Throws not_loaded) /\
  runPythonJson JSON_parse code g ev W2 = (W2, Throws not_loaded) /\
  setOutput cb W2 = (W2, Throw not_loaded).
Proof.
  intros W1 Hp Hd W2.
  assert (Hch : _worker W1 = None /\ _runner W1 = None).
  { unfold W1. rewrite run_app. cbn [fst]. rewrite run_cons. cbn [fst].
    by destruct (terminate_frame (run ops1 initial).1) as (_ & _ & _ & _ & _ & ? & ?). }
  destruct Hch as [Hw Hr].
  destruct (run_stays_terminated ops2 W1 p Hd Hp Hw Hr) as (Hp2 & Hw2 & Hr2 & Hl2).
  fold W2 in Hp2, Hw2, Hr2, Hl2.
  split; [done |]. split; [done |]. split.
  - clear Hl2 Hp2 Hw2 Hr2 W2. revert Hp Hw Hr. generalize W1. clear W1.
    induction ops2 as [|op ops IH]; intros W Hp Hw Hr; [by constructor |].
    cbn [coordinated forallb] in Hd. apply andb_true_iff in Hd as [Hd1 Hds].
    apply negb_true_iff in Hd1. rewrite run_cons. cbn [snd].
    destruct (exec_stays_terminated op W p Hd1 Hp Hw Hr) as (Hp1 & Hw1 & Hr1 & _).
    specialize (IH Hds _ Hp1 Hw1 Hr1).
    destruct (coordinator_call op) eqn:Hc.
    + destruct (coordinator_later_call JSON_parse op W p Hc Hp) as (-> & _).
      cbn [handed_out]. rewrite Hc. constructor; [by eexists | done].
    + destruct (other_op_frame JSON_parse op W Hc Hd1) as (_ & _ & _ & _ & Hh).
      change ((op, (exec op W).2) :: (run ops (exec op W).1).2)
        with ([(op, (exec op W).2)] ++ (run ops (exec op W).1).2).
      by rewrite handed_out_app, Hh.
  - by apply not_loaded_without_channel.
Qed.

(** *** What the workers do between two calls of [setOutput] *)

Lemma evolves_refl (q : bool) (c : WorkerCell) : evolves q c c.
Proof.
  split; [done |]. split; [done |]. split; [done |]. split; [done |].
  exists []. by rewrite app_nil_r.
Qed.

Lemma evolves_trans (q : bool) (c1 c2 c3 : WorkerCell) :
  evolves q c1 c2 -> evolves q c2 c3 -> evolves q c1 c3.
Proof.
  intros (Hf1 & Hl1 & Hr1 & Ho1 & ds1 & Hc1 & Hd1)
         (Hf2 & Hl2 & Hr2 & Ho2 & ds2 & Hc2 & Hd2).
  split.
  { intros Ht. pose proof (Hf1 Ht) as ->. by apply Hf2. }
  split; [congruence |]. split; [by etrans |]. split.
  { intros Hq. rewrite (Ho2 Hq). by apply Ho1. }
  exists (ds1 ++ ds2). split; [by rewrite Hc2, Hc1, app_assoc |].
  intros Hq. apply Forall_app. split; [by apply Hd1 |].
  rewrite <- (Ho1 Hq). by apply Hd2.
Qed.

Lemma step_evolves (e : Event) (c : WorkerCell) (q : bool) :
  match e with Initialize _ _ => False | _ => True end ->
  (q = true -> keeps_sink e = true) ->
  loaded_once (endpoint c) -> init_sinks (endpoint c) = [] ->
  terminated c = false ->
  evolves q c {| terminated := terminated c; endpoint := step e (endpoint c) |}.
Proof.
  intros He Hq Hinv Hs Ht.
  destruct (quiet_step e (endpoint c) He Hinv Hs) as (Hl & Hr & Ho & ds & Hc & Hd).
  split; [congruence |]. cbn [endpoint].
  split; [done |]. split; [done |]. split; [intros H; by apply Ho, Hq |].
  by exists ds.
Qed.

Lemma insert_evolves (q : bool) (ws : list WorkerCell) (r : nat)
    (c0 c1 : WorkerCell) (v : nat) (c : WorkerCell) :
  ws !! r = Some c0 -> evolves q c0 c1 -> ws !! v = Some c ->
  exists c', <[r := c1]> ws !! v = Some c' /\ evolves q c c'.
Proof.
  intros Hr He Hv. destruct (decide (r = v)) as [-> | Hne].
  - exists c1. rewrite list_lookup_insert_eq by (by eapply lookup_lt_Some).
    split; [done |]. congruence.
  - exists c. rewrite list_lookup_insert_ne by done.
    split; [done | apply evolves_refl].
Qed.

Lemma remote_evolves {A : Type} (r : nat) (e : Event)
    (f : Worker.State -> Worker.State * A) (W W' : World) (a : A) (q : bool)
    (v : nat) (c : WorkerCell) :
  match e with Initialize _ _ => False | _ => True end ->
  (q = true -> keeps_sink e = true) ->
  (forall st, (f st).1 = step e st) ->
  well_formed W -> _runner W = Some r ->
  remote r f W = Some (W', a) -> workers W !! v = Some c ->
  exists c', workers W' !! v = Some c' /\ evolves q c c'.
Proof.
  intros He Hq Hf (Hch & Hlive & _ & Hload) Hrun. unfold remote.
  destruct (workers W !! r) as [c0|] eqn:Hc0; simpl; [| done].
  pose proof (Hf (endpoint c0)) as Hst.
  destruct (f (endpoint c0)) as [st a']. intros [= <- <-] Hv. cbn [fst] in Hst.
  cbn [workers set_workers].
  destruct (Hlive r) as (c1 & Hc1 & Ht1); [congruence |].
  assert (c1 = c0) as -> by congruence.
  destruct (Hload r c0 Hc0) as [Hinv Hs].
  eapply insert_evolves; [exact Hc0 | | exact Hv].
  rewrite Hst. by apply step_evolves.
Qed.

Lemma runPython_evolves (code : string) (g : option Globals) (ev : Evaluation)
    (W : World) (q : bool) (v : nat) (c : WorkerCell) :
  well_formed W -> workers W !! v = Some c ->
  exists c', workers (runPython code g ev W).1 !! v = Some c' /\ evolves q c c'.
Proof.
  intros Hwf Hv.
  assert (Hsame : exists c', workers W !! v = Some c' /\ evolves q c c')
    by (exists c; split; [done | apply evolves_refl]).
  unfold runPython.
  destruct (_worker W), (_runner W) as [r|] eqn:Hrun; try done.
  destruct (remote r _ W) as [[W1 x]|] eqn:Hr; [| done].
  by eapply (remote_evolves r (Worker.RunPython code g ev)); [| | | done | done | exact Hr |].
Qed.

(** Every worker there is goes on as [evolves] says, whatever is done. *)
Lemma exec_evolves (op : Op) (W : World) (v : nat) (c : WorkerCell) :
  well_formed W -> workers W !! v = Some c ->
  exists c', workers (exec op W).1 !! v = Some c' /\
             evolves (negb (sets_sink op)) c c'.
Proof.
  intros Hwf Hv.
  assert (Hsame : forall q, exists c', workers W !! v = Some c' /\ evolves q c c')
    by (intros q; exists c; split; [done | apply evolves_refl]).
  destruct op as [o | o | pk o | code g ev | code g ev | cb | | w h];
    cbn [Foreground.exec sets_sink negb].
  - destruct (initializePyodide_appends o W) as (cs & H & _).
    destruct (initializePyodide o W) as [W1 p1]. cbn [fst] in *.
    exists c. rewrite H. split; [by apply lookup_app_l_Some | apply evolves_refl].
  - destruct (getPyodide_appends o W) as (cs & H & _).
    destruct (getPyodide o W) as [W1 p1]. cbn [fst] in *.
    exists c. rewrite H. split; [by apply lookup_app_l_Some | apply evolves_refl].
  - destruct (initializeWorker_appends pk o W) as (cs & H & _).
    destruct (initializeWorker pk o W) as [W1 p1]. cbn [fst] in *.
    exists c. rewrite H. split; [by apply lookup_app_l_Some | apply evolves_refl].
  - pose proof (runPython_evolves code g ev W true v c Hwf Hv) as H.
    by destruct (runPython code g ev W).
  - pose proof (runPython_evolves code g ev W true v c Hwf Hv) as H.
    rewrite <- (runPythonJson_world JSON_parse) in H.
    by destruct (runPythonJson JSON_parse code g ev W).
  - assert (H : exists c', workers (setOutput cb W).1 !! v = Some c' /\
                           evolves false c c').
    { unfold setOutput. destruct (_runner W) as [r|] eqn:Hrun; [| done].
      destruct (remote r _ W) as [[W1 x]|] eqn:Hr; [| done].
      by eapply (remote_evolves r (Worker.SetOutput cb));
        [| | | done | done | exact Hr |]. }
    by destruct (setOutput cb W).
  - cbn [fst]. unfold terminate. cbn [workers set_workers set_channel].
    destruct (_worker W) as [w0|] eqn:Hw0; [| done].
    destruct Hwf as (_ & Hlive & _). destruct (Hlive w0 Hw0) as (c0 & Hc0 & Ht0).
    destruct (decide (w0 = v)) as [-> | Hne].
    + eexists. rewrite list_lookup_alter_eq, Hv. split; [done |].
      assert (c0 = c) as -> by congruence.
      split; [congruence |]. cbn [endpoint].
      split; [done |]. split; [done |]. split; [done |].
      exists []. by rewrite app_nil_r.
    + exists c. rewrite list_lookup_alter_ne by done.
      split; [done | apply evolves_refl].
  - cbn [fst]. unfold in_worker.
    destruct (workers W !! w) as [c0|] eqn:Hc0; [| done].
    destruct (terminated c0) eqn:Ht0; [done |].
    cbn [workers set_workers].
    destruct Hwf as (_ & _ & _ & Hload). destruct (Hload w c0 Hc0) as [Hinv Hs].
    eapply insert_evolves; [exact Hc0 | | exact Hv].
    rewrite <- Ht0. by apply (step_evolves (Happens h)).
Qed.

(** A worker made by an operation has no sink in its slot and has called
    none. *)
Lemma exec_newborn (op : Op) (W : World) (v : nat) (c' : WorkerCell) :
  workers W !! v = None -> workers (exec op W).1 !! v = Some c' ->
  _output (endpoint c') = None /\ calls (endpoint c') = [].
Proof.
  intros Hv.
  assert (Happ : forall ws cs,
            ws = workers W ++ cs ->
            Forall (fun c => _output (endpoint c) = None /\
                             calls (endpoint c) = []) cs ->
            ws !! v = Some c' ->
            _output (endpoint c') = None /\ calls (endpoint c') = []).
  { intros ws cs -> Hcs Hc'.
    apply lookup_app_Some in Hc' as [Hc' | [_ Hc']]; [congruence |].
    apply list_elem_of_lookup_2 in Hc'.
    by apply (proj1 (Forall_forall _ _) Hcs). }
  destruct (coordinator_call op || direct_init op) eqn:Hk.
  - destruct op as [o | o | pk o | | | | |]; try done; cbn [Foreground.exec].
    + destruct (initializePyodide_appends o W) as (cs & H & Hcs).
      destruct (initializePyodide o W) as [W1 p1]. cbn [fst] in *. by eapply Happ.
    + destruct (getPyodide_appends o W) as (cs & H & Hcs).
      destruct (getPyodide o W) as [W1 p1]. cbn [fst] in *. by eapply Happ.
    + destruct (initializeWorker_appends pk o W) as (cs & H & Hcs).
      destruct (initializeWorker pk o W) as [W1 p1]. cbn [fst] in *. by eapply Happ.
  - apply orb_false_iff in Hk as [Hc Hd].
    destruct (other_op_frame JSON_parse op W Hc Hd) as (_ & _ & Hl & _).
    intros Hc'. apply lookup_lt_Some in Hc'. apply lookup_ge_None in Hv. lia.
Qed.

Lemma run_evolves (ops : list Op) (W : World) (v : nat) (c : WorkerCell) :
  forallb (fun op => negb (sets_sink op)) ops = true ->
  well_formed W -> workers W !! v = Some c ->
  exists c', workers (run ops W).1 !! v = Some c' /\ evolves true c c'.
Proof.
  revert W c. induction ops as [|op ops IH]; intros W c Hq Hwf Hv.
  - exists c. split; [done | apply evolves_refl].
  - cbn [forallb] in Hq. apply andb_true_iff in Hq as [Hq Hqs].
    rewrite run_cons. cbn [fst].
    destruct (exec_evolves op W v c Hwf Hv) as (c1 & Hc1 & He1).
    rewrite Hq in He1.
    destruct (IH _ c1 Hqs (exec_well_formed JSON_parse op W Hwf) Hc1)
      as (c2 & Hc2 & He2).
    exists c2. split; [done |]. by eapply evolves_trans.
Qed.

Lemma run_newborn (ops : list Op) (W : World) (v : nat) (c' : WorkerCell) :
  forallb (fun op => negb (sets_sink op)) ops = true ->
  well_formed W -> workers W !! v = None ->
  workers (run ops W).1 !! v = Some c' ->
  _output (endpoint c') = None /\ calls (endpoint c') = [].
Proof.
  revert W. induction ops as [|op ops IH]; intros W Hq Hwf Hv;
    [cbn [Foreground.run fst]; by rewrite Hv |].
  cbn [forallb] in Hq. apply andb_true_iff in Hq as [Hq Hqs].
  rewrite run_cons. cbn [fst].
  pose proof (exec_well_formed JSON_parse op W Hwf) as Hwf1.
  destruct (workers (exec op W).1 !! v) as [c1|] eqn:Hc1; [| by apply IH].
  destruct (exec_newborn op W v c1 Hv Hc1) as [Ho1 Hcalls1].
  destruct (run_evolves ops _ v c1 Hqs Hwf1 Hc1)
    as (c2 & Hc2 & _ & _ & _ & Ho2 & ds & Hcs & Hds).
  intros Hc'. assert (c2 = c') as -> by congruence.
  split; [by rewrite (Ho2 eq_refl) |].
  rewrite Hcs, Hcalls1. specialize (Hds eq_refl). rewrite Ho1 in Hds.
  destruct ds as [|d ds]; [done |]. by inversion Hds.
Qed.

(** The same for a stretch with calls of [setOutput] in it: the engine of a
    worker stays, and [_pyodideReady] stays [null] or stays set. *)
Lemma run_engine_fixed (ops : list Op) (W : World) (v : nat) (c : WorkerCell) :
  well_formed W -> workers W !! v = Some c ->
  exists c', workers (run ops W).1 !! v = Some c' /\
    loads (endpoint c') = loads (endpoint c) /\
    (_pyodideReady (endpoint c') = None <-> _pyodideReady (endpoint c) = None).
Proof.
  revert W c. induction ops as [|op ops IH]; intros W c Hwf Hv.
  - by exists c.
  - rewrite run_cons. cbn [fst].
    destruct (exec_evolves op W v c Hwf Hv) as (c1 & Hc1 & _ & Hl1 & Hr1 & _).
    destruct (IH _ c1 (exec_well_formed JSON_parse op W Hwf) Hc1)
      as (c2 & Hc2 & Hl2 & Hr2).
    exists c2. split; [done |]. split; [congruence | by etrans].
Qed.

End ClientFacts.

Section ClientFlows.

Import Worker Foreground.

Variable JSON_parse : Value -> Result Value.

Local Abbreviation exec := (Foreground.exec JSON_parse).
Local Abbreviation run := (Foreground.run JSON_parse).

(** *** The call that triggers initialization *)

Lemma initializePyodide_start (o : option InitOptions) (W : World) :
  pyodide W = None -> workers W = [] -> _worker W = None ->
  let sinks := given (o ≫= on_stdout) || given (o ≫= on_stderr) in
  let wo := if sinks
            then Some {| stdout := o ≫= on_stdout; stderr := o ≫= on_stderr |}
            else None in
  let W1 := (initializePyodide o W).1 in
  cloneable wo = negb sinks /\
  setDebug_calls W1 = default false (o ≫= debug) :: setDebug_calls W /\
  _worker W1 = Some 0 /\ _runner W1 = Some 0 /\
  worker_inits W1 = (o ≫= packages, wo) :: worker_inits W /\
  workers W1 =
    [{| terminated := false;
        endpoint :=
          if sinks then Worker.initial
          else {| _pyodideReady := Some Pending; _output := None;
                  loads := [(default [] (o ≫= packages), None)];
                  calls := [] |} |}] /\
  pyodide W1 =
    Some (AsyncReturn (S (fresh W))
            (InitializeWorkerCall (S (S (fresh W)))
               (if sinks then Refused data_clone_error else Remote 0))).
Proof.
  intros Hp Hw Hwk.
  unfold initializePyodide, _initializePyodide, initializeWorker.
  cbn [pyodide setDebug allocate log_worker_init _worker workers].
  rewrite Hp, Hwk, Hw.
  destruct (o ≫= on_stdout), (o ≫= on_stderr); cbn; by rewrite ?Hw.
Qed.

(** X10: what the configuration of the call that triggers initialization
    does.  From a state in which nothing is initialized,
    [initializePyodide(options)] calls [setDebug(debug)] ([false] when
    absent) and makes worker 0.  Without a sink in the configuration,
    [loadPyodide] is started in that worker with the [packages] of the call
    ([[]] when absent) and without options, and the recorded promise waits
    for it.  With [stdout] or [stderr] given, the call of the worker's
    [initialize] is rejected when it is posted: the worker is there, no
    engine is started in it, and the recorded promise is rejected with that
    error.  [getPyodide] does the same with its sinks, without packages and
    with [false] for [debug]. *)
Theorem first_call_config_decides_start
    (o : option InitOptions) (io : option IoOptions) (W : World) :
  untouched W ->
  let made := fun (pk : list string) (out err : option Sink) =>
    [{| terminated := false;
        endpoint :=
          if given out || given err then Worker.initial
          else {| _pyodideReady := Some Pending; _output := None;
                  loads := [(pk, None)]; calls := [] |} |}] in
  let answer := fun (W1 : World) (out err : option Sink) =>
    exists i j p,
      pyodide W1 = Some p /\
      p = AsyncReturn i (InitializeWorkerCall j
            (if given out || given err then Refused data_clone_error
             else Remote 0)) /\
      settle W1 p =
        (if given out || given err then Rejected data_clone_error
         else Pending) in
  (setDebug_calls (initializePyodide o W).1 =
     default false (o ≫= debug) :: setDebug_calls W /\
   _worker (initializePyodide o W).1 = Some 0 /\
   workers (initializePyodide o W).1 =
     made (default [] (o ≫= packages)) (o ≫= on_stdout) (o ≫= on_stderr) /\
   answer (initializePyodide o W).1 (o ≫= on_stdout) (o ≫= on_stderr)) /\
  (setDebug_calls (getPyodide io W).1 = false :: setDebug_calls W /\
   _worker (getPyodide io W).1 = Some 0 /\
   workers (getPyodide io W).1 = made [] (io ≫= stdout) (io ≫= stderr) /\
   answer (getPyodide io W).1 (io ≫= stdout) (io ≫= stderr)).
Proof.
  intros (Hp & Hi & Hw & Hwk & Hr) made answer.
  assert (Hfirst : forall o' W0,
            pyodide W0 = None -> workers W0 = [] -> _worker W0 = None ->
            setDebug_calls (initializePyodide o' W0).1 =
              default false (o' ≫= debug) :: setDebug_calls W0 /\
            _worker (initializePyodide o' W0).1 = Some 0 /\
            workers (initializePyodide o' W0).1 =
              made (default [] (o' ≫= packages)) (o' ≫= on_stdout)
                (o' ≫= on_stderr) /\
            answer (initializePyodide o' W0).1 (o' ≫= on_stdout) (o' ≫= on_stderr)).
  { intros o' W0 Hp0 Hw0 Hwk0.
    destruct (initializePyodide_start o' W0 Hp0 Hw0 Hwk0)
      as (_ & Hd & Hc & _ & _ & Hws & Hpy).
    split; [done |]. split; [done |]. split; [done |].
    eexists _, _, _. split; [exact Hpy |]. split; [reflexivity |].
    cbn [settle]. rewrite Hws.
    by destruct (given (o' ≫= on_stdout) || given (o' ≫= on_stderr)). }
  split; [by apply Hfirst |].
  unfold getPyodide. cbn [pyodide allocate]. rewrite Hp.
  match goal with
  | |- context [initializePyodide ?o' ?W0] =>
      destruct (Hfirst o' W0 Hp Hw Hwk) as (Hd & Hc & Hws & Ha);
      destruct (initializePyodide o' W0) as [W1 p1]
  end.
  cbn [fst] in *. rewrite Hd, Hc, Hws. by destruct io.
Qed.

Lemma exec_inits_fixed (op : Op) (W : World) (p : Promise) :
  direct_init op = false -> pyodide W = Some p ->
  pyodide (exec op W).1 = Some p /\ worker_inits (exec op W).1 = worker_inits W.
Proof.
  intros Hd Hp. destruct (coordinator_call op) eqn:Hc.
  - by destruct (coordinator_later_call JSON_parse op W p Hc Hp) as (_ & -> & -> & _).
  - by destruct (other_op_frame JSON_parse op W Hc Hd) as (-> & -> & _).
Qed.

Lemma run_inits_fixed (ops : list Op) (W : World) (p : Promise) :
  coordinated ops = true -> pyodide W = Some p ->
  pyodide (run ops W).1 = Some p /\ worker_inits (run ops W).1 = worker_inits W.
Proof.
  revert W. induction ops as [|op ops IH]; intros W Hd Hp; [done |].
  cbn [coordinated forallb] in Hd. apply andb_true_iff in Hd as [Hd Hds].
  apply negb_true_iff in Hd. rewrite run_cons. cbn [fst].
  destruct (exec_inits_fixed op W p Hd Hp) as [Hp1 Hi1].
  destruct (IH _ Hds Hp1) as [Hp2 Hi2]. split; [done | congruence].
Qed.

Lemma untouched_well_formed (W : World) : untouched W -> well_formed W.
Proof.
  intros (_ & _ & Hw & Hwk & Hr). unfold well_formed. rewrite Hw, Hwk, Hr.
  repeat split; try done; intros w c H; by rewrite lookup_nil in H.
Qed.

(** The recorded promise, the one invocation of [initializeWorker] and the
    one worker, after a run in which the Coordinator was called. *)
Lemma run_first_shape (ops : list Op) (W : World) :
  coordinated ops = true -> untouched W ->
  existsb coordinator_call ops = true ->
  exists i j k pk o c,
    pyodide (run ops W).1 = Some (AsyncReturn i (InitializeWorkerCall j k)) /\
    worker_inits (run ops W).1 = [(pk, o)] /\
    workers (run ops W).1 = [c] /\
    ((cloneable o = true /\ k = Remote 0 /\ _pyodideReady (endpoint c) <> None) \/
     (cloneable o = false /\ k = Refused data_clone_error /\
      _pyodideReady (endpoint c) = None /\ loads (endpoint c) = [])).
Proof.
  revert W. induction ops as [|op ops IH]; intros W Hd Hu He; [done |].
  cbn [coordinated forallb] in Hd. apply andb_true_iff in Hd as [Hd Hds].
  apply negb_true_iff in Hd. rewrite run_cons. cbn [fst].
  cbn [existsb] in He. destruct (coordinator_call op) eqn:Hc.
  - assert (Hshape : exists i j k pk o c,
              pyodide (exec op W).1 = Some (AsyncReturn i (InitializeWorkerCall j k)) /\
              worker_inits (exec op W).1 = [(pk, o)] /\
              workers (exec op W).1 = [c] /\
              ((cloneable o = true /\ k = Remote 0 /\
                _pyodideReady (endpoint c) <> None) \/
               (cloneable o = false /\ k = Refused data_clone_error /\
                _pyodideReady (endpoint c) = None /\ loads (endpoint c) = []))).
    { pose proof Hu as (Hp & Hi & Hw & Hwk & Hr).
      assert (Hfirst : forall o' W0,
                pyodide W0 = None -> workers W0 = [] -> _worker W0 = None ->
                worker_inits W0 = [] ->
                exists i j k pk o c,
                  pyodide (initializePyodide o' W0).1 =
                    Some (AsyncReturn i (InitializeWorkerCall j k)) /\
                  worker_inits (initializePyodide o' W0).1 = [(pk, o)] /\
                  workers (initializePyodide o' W0).1 = [c] /\
                  ((cloneable o = true /\ k = Remote 0 /\
                    _pyodideReady (endpoint c) <> None) \/
                   (cloneable o = false /\ k = Refused data_clone_error /\
                    _pyodideReady (endpoint c) = None /\ loads (endpoint c) = []))).
      { intros o' W0 Hp0 Hw0 Hwk0 Hi0.
        destruct (initializePyodide_start o' W0 Hp0 Hw0 Hwk0)
          as (Hcl & _ & _ & _ & Hin & Hws & Hpy).
        rewrite Hi0 in Hin.
        eexists _, _, _, _, _, _. split; [exact Hpy |]. split; [exact Hin |].
        split; [exact Hws |]. rewrite Hcl. cbn [endpoint].
        destruct (given (o' ≫= on_stdout) || given (o' ≫= on_stderr));
          [by right | by left]. }
      destruct op as [o | o | | | | | |]; try done; cbn [Foreground.exec].
      - destruct (Hfirst o W Hp Hw Hwk Hi) as (i & j & k & pk & o1 & c & H).
        destruct (initializePyodide o W). by exists i, j, k, pk, o1, c.
      - unfold getPyodide. cbn [pyodide allocate]. rewrite Hp.
        match goal with
        | |- context [initializePyodide ?o' ?W0] =>
            destruct (Hfirst o' W0 Hp Hw Hwk Hi) as (i & j & k & pk & o1 & c & H);
            destruct (initializePyodide o' W0) as [W1 p1]
        end.
        by exists i, j, k, pk, o1, c. }
    destruct Hshape as (i & j & k & pk & o & c & Hp1 & Hi1 & Hw1 & Hk).
    pose proof (exec_well_formed JSON_parse op W (untouched_well_formed W Hu)) as Hwf1.
    destruct (run_inits_fixed ops _ _ Hds Hp1) as [Hp2 Hi2].
    destruct (run_engine_fixed JSON_parse ops _ 0 c Hwf1) as (c' & Hc' & Hl' & Hr');
      [by rewrite Hw1 |].
    destruct (coordinator_first_call JSON_parse op W Hc Hu) as (p & r & _ & Hrec & _).
    destruct (run_recorded JSON_parse ops _ _ Hds Hrec) as [(_ & _ & Hlen) _].
    exists i, j, k, pk, o, c'.
    split; [done |]. split; [congruence |]. split.
    { destruct (workers (run ops (exec op W).1).1) as [|c0 [|c1 cs]]; try done.
      simpl in Hc'. congruence. }
    destruct Hk as [(Ho & Hk & Hr) | (Ho & Hk & Hr & Hl)].
    + left. split; [done |]. split; [done |]. intros Hn. by apply Hr, Hr'.
    + right. split; [done |]. split; [done |]. split; [by apply Hr' | congruence].
  - apply IH; [done | by apply other_op_untouched | done].
Qed.

(** X11: the Coordinator's promise follows the one worker.  In a run in
    which initialization goes through the Coordinator there is one
    invocation of [initializeWorker] and one worker.  When that invocation
    carried no sink, the worker's [initialize] ran and the recorded promise
    is pending as long as [_pyodideReady] is pending, rejected with the error
    of the load when the load failed, fulfilled with the bridge object when
    it succeeded.  When it carried a sink, [_pyodideReady] is still [null],
    no engine was started and the recorded promise is rejected with the
    error of the failed clone. *)
Theorem bridge_promise_follows_load (ops : list Op) :
  coordinated ops = true ->
  existsb coordinator_call ops = true ->
  let W := (run ops initial).1 in
  exists p c id pk o,
    pyodide W = Some p /\ workers W = [c] /\ worker_inits W = [(pk, o)] /\
    (_pyodideReady (endpoint c) = None <-> cloneable o = false) /\
    (_pyodideReady (endpoint c) = None -> loads (endpoint c) = []) /\
    settle W p =
      match _pyodideReady (endpoint c) with
      | Some (Fulfilled _) => Fulfilled (Facade id)
      | Some (Rejected e) => Rejected e
      | Some Pending => Pending
      | None => Rejected data_clone_error
      end.
Proof.
  intros Hd He W.
  destruct (run_first_shape ops initial Hd untouched_initial He)
    as (i & j & k & pk & o & c & Hp & Hi & Hw & Hk).
  fold W in Hp, Hi, Hw.
  exists (AsyncReturn i (InitializeWorkerCall j k)), c, j, pk, o.
  split; [done |]. split; [done |]. split; [done |].
  destruct Hk as [(Ho & -> & Hr) | (Ho & -> & Hr & Hl)].
  - split; [split; [done | congruence] |]. split; [done |].
    cbn [settle]. rewrite Hw. cbn.
    by destruct (_pyodideReady (endpoint c)) as [[| |]|].
  - split; [done |]. split; [done |]. cbn [settle]. by rewrite Hr.
Qed.

(** X12: once the worker is loaded, [runPython] of the client gives what
    [runPython] of the worker gives: the value of the evaluation as it is, or
    the error thrown there; it is never left waiting, and it changes nothing
    in the foreground but the state of that worker. *)
Theorem loaded_client_runs_code
    (ops : list Op) (code : string) (g : option Globals) (ev : Evaluation)
    (w : nat) (c : WorkerCell) (u : unit) :
  let W := (run ops initial).1 in
  _worker W = Some w -> workers W !! w = Some c ->
  _pyodideReady (endpoint c) = Some (Fulfilled u) ->
  runPython code g ev W =
    (set_workers
       (<[w := {| terminated := false;
                  endpoint := (Worker.runPython code g ev (endpoint c)).1 |}]>
          (workers W)) W,
     (Worker.runPython code g ev (endpoint c)).2) /\
  (forall v, outcome ev = Ok v -> (runPython code g ev W).2 = Returns v) /\
  (forall e, outcome ev = Throw e ->
     exists e', (runPython code g ev W).2 = Throws e') /\
  (runPython code g ev W).2 <> Awaiting.
Proof.
  intros W Hw Hc Hr.
  pose proof (run_well_formed JSON_parse ops initial well_formed_initial)
    as (Hch & Hlive & _).
  fold W in Hch, Hlive. destruct (Hlive w Hw) as (c0 & Hc0 & Ht).
  assert (c0 = c) as -> by congruence.
  assert (Hrun : runPython code g ev W =
    (set_workers
       (<[w := {| terminated := false;
                  endpoint := (Worker.runPython code g ev (endpoint c)).1 |}]>
          (workers W)) W,
     (Worker.runPython code g ev (endpoint c)).2)).
  { unfold runPython, remote. rewrite <- Hch, Hw, Hc. cbn. rewrite Ht.
    by destruct (Worker.runPython code g ev (endpoint c)). }
  split; [done |]. rewrite Hrun. cbn [snd]. unfold Worker.runPython. rewrite Hr.
  split; [| split].
  - by intros v ->.
  - intros e ->. destruct e; cbn; by eexists.
  - destruct (outcome ev) as [v | [n m | v]]; by cbn.
Qed.

Lemma write_no_sinks (s : Stream) (msg : string) (st : State) :
  init_sinks st = [] -> loads st <> [] ->
  calls (write s msg st) =
  calls st ++ option_list ((fun f => (f, msg)) <$> _output st).
Proof.
  unfold init_sinks, write. intros Hs Hl.
  destruct (loads st) as [|[pk o] l]; [done |].
  assert (Ho : o ≫= stdout = None /\ o ≫= stderr = None).
  { destruct o as [[[a|] [b|]]|]; by simpl in *. }
  destruct Ho as [Ho He].
  destruct s; unfold stdout_handler, stderr_handler; rewrite calls_handler;
    rewrite ?Ho, ?He; by destruct (_output st).
Qed.

(** X13: [setOutput(callback)] of the client registers [callback] in the
    current worker without calling it, and the next chunk the engine of
    that worker writes, if an engine was started, goes to [callback] and to
    nothing else. *)
Theorem client_setOutput_reaches_worker
    (ops : list Op) (cb : option Sink) (s : Stream) (msg : string)
    (w : nat) (c : WorkerCell) :
  let W := (run ops initial).1 in
  _worker W = Some w -> workers W !! w = Some c ->
  let W1 := (setOutput cb W).1 in
  (setOutput cb W).2 = Ok tt /\
  exists c1 c2,
    workers W1 !! w = Some c1 /\
    _output (endpoint c1) = cb /\ calls (endpoint c1) = calls (endpoint c) /\
    workers (in_worker w (Writes s msg) W1) !! w = Some c2 /\
    (loads (endpoint c) <> [] ->
     calls (endpoint c2) =
       calls (endpoint c) ++ option_list ((fun f => (f, msg)) <$> cb)) /\
    (loads (endpoint c) = [] -> calls (endpoint c2) = calls (endpoint c)).
Proof.
  intros W Hw Hc W1.
  pose proof (run_well_formed JSON_parse ops initial well_formed_initial)
    as (Hch & Hlive & _ & Hload).
  fold W in Hch, Hlive, Hload. destruct (Hlive w Hw) as (c0 & Hc0 & Ht).
  assert (c0 = c) as -> by congruence.
  destruct (Hload w c Hc) as [_ Hs].
  assert (Hlt : w < length (workers W)) by (by eapply lookup_lt_Some).
  assert (Hset : setOutput cb W =
    (set_workers
       (<[w := {| terminated := false;
                  endpoint := Worker.setOutput cb (endpoint c) |}]> (workers W)) W,
     Ok tt)).
  { unfold setOutput, remote. rewrite <- Hch, Hw, Hc. cbn. by rewrite Ht. }
  subst W1. rewrite Hset. cbn [fst snd]. split; [done |].
  eexists. eexists.
  cbn [workers set_workers].
  split; [by rewrite list_lookup_insert_eq |].
  split; [done |]. split; [done |].
  unfold in_worker. cbn [workers set_workers].
  rewrite list_lookup_insert_eq by done. cbn [terminated endpoint happen].
  cbn [workers set_workers].
  rewrite list_lookup_insert_eq by (by rewrite length_insert).
  split; [reflexivity |]. cbn [endpoint]. split.
  - intros Hl. by rewrite write_no_sinks.
  - intros Hl. unfold write. cbn [loads Worker.setOutput]. by rewrite Hl.
Qed.

Lemma terminate_stops_all (W : World) (w : nat) (c : WorkerCell) :
  well_formed W -> workers W !! w = Some c ->
  workers (terminate W) !! w =
    Some {| terminated := true; endpoint := endpoint c |}.
Proof.
  intros (_ & _ & Hdead & _) Hc. unfold terminate.
  cbn [workers set_workers set_channel].
  assert (Hold : _worker W <> Some w ->
                 Some c = Some {| terminated := true; endpoint := endpoint c |}).
  { intros Hne. pose proof (Hdead w c Hc Hne) as Ht. destruct c. simpl in *.
    by subst. }
  destruct (_worker W) as [w0|] eqn:Hw0.
  - destruct (decide (w0 = w)) as [-> | Hne].
    + by rewrite list_lookup_alter_eq, Hc.
    + rewrite list_lookup_alter_ne by done. rewrite Hc. apply Hold. congruence.
  - rewrite Hc. by apply Hold.
Qed.

(** X14: a bridge terminated while the engine is still loading never becomes
    ready.  If the recorded promise is pending when [terminate()] runs, it
    is pending in every later state, whatever is done afterwards, and so is
    every promise the Coordinator had handed out. *)
Theorem terminate_while_loading_hangs (ops1 ops2 : list Op) (p : Promise) :
  coordinated ops1 = true ->
  let W1 := (run ops1 initial).1 in
  pyodide W1 = Some p ->
  settle W1 p = Pending ->
  let W2 := (run ops2 (terminate W1)).1 in
  settle W2 p = Pending /\
  Forall (fun r => settle W2 r = Pending) (handed_out (run ops1 initial).2).
Proof.
  intros Hd W1 Hp Hpend W2.
  destruct (run_untouched JSON_parse ops1 initial Hd untouched_initial) as [Hno Hyes].
  fold W1 in Hno, Hyes.
  destruct (existsb coordinator_call ops1) eqn:He.
  2: { destruct (Hno eq_refl) as [(Hnone & _) _]. congruence. }
  destruct (Hyes eq_refl) as (p' & first & rest & (Hp' & _ & Hw) & Hh & Hfirst & Hrest).
  assert (p' = p) as -> by congruence.
  destruct (run_first_shape ops1 initial Hd untouched_initial He)
    as (i & j & k & pk & o & c0 & Hshape & _ & _ & Hk).
  fold W1 in Hshape.
  assert (p = AsyncReturn i (InitializeWorkerCall j k)) as -> by congruence.
  assert (k = Remote 0) as ->.
  { destruct Hk as [(_ & -> & _) | (_ & -> & _)]; [done |].
    by cbn [settle] in Hpend. }
  clear Hk c0.
  pose proof (run_well_formed JSON_parse ops1 initial well_formed_initial) as Hwf.
  fold W1 in Hwf.
  destruct (workers W1) as [|c [|c' cs]] eqn:Hws; try done.
  assert (Hc : workers W1 !! 0 = Some c) by (by rewrite Hws).
  pose proof (terminate_stops_all W1 0 c Hwf Hc) as Hc1.
  pose proof (run_frozen JSON_parse ops2 (terminate W1) 0 _ (terminate_well_formed W1 Hwf)
                Hc1 eq_refl) as Hc2.
  fold W2 in Hc2.
  assert (Hpend2 : settle W2 (AsyncReturn i (InitializeWorkerCall j (Remote 0))) = Pending).
  { cbn [settle] in *. rewrite Hc2. cbn [endpoint]. by rewrite Hc in Hpend. }
  split; [done |]. rewrite Hh. constructor; [by rewrite Hfirst |].
  eapply Forall_impl; [exact Hrest |]. by intros r [id ->].
Qed.

(** *** [initializeWorker] with a sink *)

(** X15: [initializeWorker] with a [stdout] or [stderr] sink, called when
    there is no worker, is rejected with the error of the failed clone,
    whatever happens later.  It leaves a worker behind, with [_worker] and
    [_runner] set and without an engine, so that a further [initializeWorker]
    does nothing and is fulfilled with a bridge object. *)
Theorem sink_configured_init_is_refused
    (pk : option (list string)) (o : option IoOptions) (W : World) :
  _worker W = None -> cloneable o = false ->
  let W1 := (initializeWorker pk o W).1 in
  (forall W', settle W' (initializeWorker pk o W).2 = Rejected data_clone_error) /\
  _worker W1 = Some (length (workers W)) /\
  _runner W1 = Some (length (workers W)) /\
  workers W1 = workers W ++ [{| terminated := false; endpoint := Worker.initial |}] /\
  (forall pk' o' W',
     workers (initializeWorker pk' o' W1).1 = workers W1 /\
     settle W' (initializeWorker pk' o' W1).2 = Fulfilled (Facade (fresh W1))).
Proof.
  intros Hw Ho W1.
  destruct (initializeWorker_new pk o W Hw)
    as (st & k & Hinit & _ & [(Hc & _) | (_ & -> & ->)]); [congruence |].
  subst W1. rewrite Hinit. cbn [fst snd]. split; [done |].
  split; [done |]. split; [done |]. split; [done |].
  intros pk' o' W'.
  match goal with
  | |- context [initializeWorker pk' o' ?W0] =>
      rewrite (initializeWorker_skipped pk' o' W0 (length (workers W)) eq_refl)
  end.
  done.
Qed.

(** *** The sink slot, through the client *)

(** C9: [setOutput] of the client replaces the one registered sink, last
    write wins.  In any state the client can reach with a worker,
    [setOutput(callback)] succeeds and puts [callback] in the slot of that
    worker without calling anything.  From then on, whatever is done short
    of another [setOutput], the slot of that worker holds [callback]; every
    chunk its engine writes is delivered to [callback] and to nothing else;
    and every sink invocation made by any worker is one of [callback]: a
    sink registered before gets nothing more, and after [setOutput(null)]
    no sink is invoked at all. *)
Theorem setOutput_last_write_wins
    (ops0 ops : list Op) (callback : option Sink) (w : nat) :
  let W0 := (run ops0 initial).1 in
  _runner W0 = Some w ->
  forallb (fun op => negb (sets_sink op)) ops = true ->
  let W1 := (setOutput callback W0).1 in
  let W2 := (run ops W1).1 in
  (setOutput callback W0).2 = Ok tt /\
  (exists c0 c1 c2,
     workers W0 !! w = Some c0 /\ workers W1 !! w = Some c1 /\
     workers W2 !! w = Some c2 /\
     calls (endpoint c1) = calls (endpoint c0) /\
     _output (endpoint c1) = callback /\ _output (endpoint c2) = callback /\
     forall s msg, loads (endpoint c2) <> [] ->
       calls (write s msg (endpoint c2)) =
       calls (endpoint c2) ++ option_list ((fun f => (f, msg)) <$> callback)) /\
  (forall v c2, workers W2 !! v = Some c2 ->
     exists ds,
       calls (endpoint c2) =
         default [] (calls ∘ endpoint <$> workers W1 !! v) ++ ds /\
       Forall (fun d => Some d.1 = callback) ds /\
       (forall old msg, Some old <> callback -> (old, msg) ∉ ds) /\
       (callback = None -> ds = [])).
Proof.
  intros W0 Hrun Hq W1 W2.
  pose proof (run_well_formed JSON_parse ops0 initial well_formed_initial) as Hwf0.
  fold W0 in Hwf0. pose proof Hwf0 as (Hch & Hlive & _).
  assert (Hw : _worker W0 = Some w) by congruence.
  destruct (Hlive w Hw) as (c0 & Hc0 & Ht0).
  assert (Hlt : w < length (workers W0)) by (by eapply lookup_lt_Some).
  assert (Hset : setOutput callback W0 =
    (set_workers
       (<[w := {| terminated := false;
                  endpoint := Worker.setOutput callback (endpoint c0) |}]>
          (workers W0)) W0,
     Ok tt)).
  { unfold setOutput, remote. rewrite Hrun, Hc0. cbn. by rewrite Ht0. }
  pose proof (setOutput_well_formed callback W0 Hwf0) as Hwf1. fold W1 in Hwf1.
  assert (Hw1 : _worker W1 = Some w) by (unfold W1; by rewrite Hset).
  assert (Hc1 : workers W1 !! w =
                Some {| terminated := false;
                        endpoint := Worker.setOutput callback (endpoint c0) |}).
  { unfold W1. rewrite Hset. cbn [fst workers set_workers].
    by rewrite list_lookup_insert_eq. }
  pose proof (run_well_formed JSON_parse ops W1 Hwf1) as Hwf2. fold W2 in Hwf2.
  destruct (run_evolves JSON_parse ops W1 w _ Hq Hwf1 Hc1)
    as (c2 & Hc2 & _ & Hl2 & _ & Ho2 & ds & Hcs & Hds).
  fold W2 in Hc2. specialize (Ho2 eq_refl). specialize (Hds eq_refl).
  cbn [endpoint Worker.setOutput _output calls] in Ho2, Hds, Hcs.
  assert (Hcons : forall ds0 : list (Sink * string),
            Forall (fun d => Some d.1 = callback) ds0 ->
            (forall old msg, Some old <> callback -> (old, msg) ∉ ds0) /\
            (callback = None -> ds0 = [])).
  { intros ds0 H0. split.
    - intros old msg Hold Hin.
      apply (proj1 (Forall_forall _ _) H0) in Hin. by apply Hold.
    - intros ->. destruct ds0 as [|d ds0]; [done |]. by inversion H0. }
  split; [by rewrite Hset |]. split.
  - eexists c0, _, c2. split; [done |]. split; [exact Hc1 |]. split; [done |].
    split; [done |]. split; [done |]. split; [done |].
    intros s msg Hl. destruct Hwf2 as (_ & _ & _ & Hload2).
    destruct (Hload2 w c2 Hc2) as [_ Hs2].
    by rewrite write_no_sinks, Ho2.
  - intros v c2' Hc2'.
    destruct (workers W1 !! v) as [c1'|] eqn:Hc1'; cbn [fmap option_fmap option_map default].
    + destruct (decide (v = w)) as [-> | Hne].
      * rewrite Hc1 in Hc1'. injection Hc1' as <-.
        assert (c2' = c2) as -> by congruence.
        exists ds. split; [done |]. split; [done |]. by apply Hcons.
      * destruct Hwf1 as (_ & _ & Hdead1 & _).
        assert (Ht1 : terminated c1' = true)
          by (apply (Hdead1 v c1' Hc1'); congruence).
        pose proof (run_frozen JSON_parse ops W1 v c1'
                      (setOutput_well_formed callback W0 Hwf0) Hc1' Ht1) as Hfr.
        fold W2 in Hfr. assert (c2' = c1') as -> by congruence.
        exists []. rewrite app_nil_r. split; [done |]. split; [done |].
        by apply Hcons.
    + destruct (run_newborn JSON_parse ops W1 v c2' Hq Hwf1 Hc1' Hc2') as [_ Hn].
      exists []. rewrite Hn. split; [done |]. split; [done |]. by apply Hcons.
Qed.

End ClientFlows.

(** ** More concrete runs *)

Section MoreRuns.

Import Text Worker Foreground.

Lemma marker_free_message_unchanged_witness :
  let message := "Traceback" +:+ String newline "ZeroDivisionError: division by zero" in
  let st := Worker.setOutput (Some 3) Worker.initial in
  includes message exec_marker = false /\
  on_error (ErrorObject "PythonError" message) st =
    (call (Some 3) message st, Throws (ErrorObject "Error" message)).
Proof.
  intros message st. split; [reflexivity |].
  exact (marker_free_message_unchanged "PythonError" message st eq_refl).
Defined.

Lemma terminated_worker_is_frozen_witness :
  let parse := fun v : Value => Ok v in
  let ops1 := [InitializeWorker None None; InWorker 0 (LoadSettles (Ok tt));
               SetOutput (Some 4)] in
  let ops2 := [InWorker 0 (Writes Stdout "late"); InitializeWorker None None;
               SetOutput (Some 5); InWorker 0 (Writes Stdout "later")] in
  let W1 := (run parse ops1 initial).1 in
  _worker W1 = Some 0 /\
  exists c, workers W1 !! 0 = Some c /\
    workers (run parse ops2 (terminate W1)).1 !! 0 =
      Some {| terminated := true; endpoint := endpoint c |}.
Proof.
  intros parse ops1 ops2 W1. split; [reflexivity |].
  exact (terminated_worker_is_frozen parse ops1 ops2 0 eq_refl).
Defined.

Lemma coordinator_never_revives_bridge_witness :
  let parse := fun v : Value => Ok v in
  let ops1 := [InitializePyodide None; InWorker 0 (LoadSettles (Ok tt))] in
  let ops2 := [InitializePyodide (Some {| debug := None; packages := Some ["numpy"];
                                          on_stdout := Some 0; on_stderr := None |});
               GetPyodide None] in
  let p := AsyncReturn 1 (InitializeWorkerCall 2 (Remote 0)) in
  let ev := {| written := []; outcome := Ok (VNumber 2) |} in
  let W1 := (run parse (ops1 ++ [Terminate]) initial).1 in
  let W2 := (run parse ops2 W1).1 in
  pyodide W1 = Some p /\ coordinated ops2 = true /\
  length (workers W2) = 1 /\
  runPython "1 + 1" None ev W2 = (W2, Throws not_loaded).
Proof.
  intros parse ops1 ops2 p ev W1 W2.
  destruct (coordinator_never_revives_bridge parse ops1 ops2 p "1 + 1" None ev None
              eq_refl eq_refl) as (_ & Hl & _ & Hrun & _).
  split; [reflexivity |]. split; [reflexivity |]. split; [exact Hl | exact Hrun].
Defined.

Lemma first_call_config_decides_start_witness :
  let o := Some {| debug := Some true; packages := Some ["numpy"];
                   on_stdout := None; on_stderr := Some 1 |} in
  let o' := Some {| debug := None; packages := Some ["numpy"];
                    on_stdout := None; on_stderr := None |} in
  untouched initial /\
  setDebug_calls (initializePyodide o initial).1 = [true] /\
  workers (initializePyodide o initial).1 =
    [{| terminated := false; endpoint := Worker.initial |}] /\
  pyodide (initializePyodide o initial).1 =
    Some (AsyncReturn 1 (InitializeWorkerCall 2 (Refused data_clone_error))) /\
  workers (initializePyodide o' initial).1 =
    [{| terminated := false;
        endpoint :=
          {| _pyodideReady := Some Pending; _output := None;
             loads := [(["numpy"], None)]; calls := [] |} |}] /\
  workers (getPyodide None initial).1 =
    [{| terminated := false;
        endpoint :=
          {| _pyodideReady := Some Pending; _output := None;
             loads := [([], None)]; calls := [] |} |}].
Proof.
  intros o o'.
  assert (Hu : untouched initial) by (by repeat split).
  destruct (first_call_config_decides_start o None initial Hu)
    as [(Hd & _ & Hw & _) (_ & _ & Hg & _)].
  destruct (first_call_config_decides_start o' None initial Hu)
    as [(_ & _ & Hw' & _) _].
  split; [exact Hu |]. split; [exact Hd |]. split; [exact Hw |].
  split; [reflexivity |]. split; [exact Hw' | exact Hg].
Defined.

Lemma bridge_promise_follows_load_witness :
  let parse := fun v : Value => Ok v in
  let e := ErrorObject "Error" "Failed to fetch" in
  let ops := [GetPyodide None; InWorker 0 (LoadSettles (Throw e));
              InitializePyodide None] in
  let W := (run parse ops initial).1 in
  coordinated ops = true /\ existsb coordinator_call ops = true /\
  settle W (AsyncReturn 2 (InitializeWorkerCall 3 (Remote 0))) = Rejected e /\
  exists p c id pk o,
    pyodide W = Some p /\ workers W = [c] /\ worker_inits W = [(pk, o)] /\
    (_pyodideReady (endpoint c) = None <-> cloneable o = false) /\
    (_pyodideReady (endpoint c) = None -> loads (endpoint c) = []) /\
    settle W p =
      match _pyodideReady (endpoint c) with
      | Some (Fulfilled _) => Fulfilled (Facade id)
      | Some (Rejected e) => Rejected e
      | Some Pending => Pending
      | None => Rejected data_clone_error
      end.
Proof.
  intros parse e ops W. split; [reflexivity |]. split; [reflexivity |].
  split; [reflexivity |].
  exact (bridge_promise_follows_load parse ops eq_refl eq_refl).
Defined.

Lemma loaded_client_runs_code_witness :
  let parse := fun v : Value => Ok v in
  let ops := [InitializePyodide None; InWorker 0 (LoadSettles (Ok tt))] in
  let W := (run parse ops initial).1 in
  let ev := {| written := [(Stdout, "hi")]; outcome := Ok (VNumber 7) |} in
  _worker W = Some 0 /\
  (runPython "x + sum(y)" None ev W).2 = Returns (VNumber 7).
Proof.
  intros parse ops W ev.
  destruct (loaded_client_runs_code parse ops "x + sum(y)" None ev 0
              {| terminated := false;
                 endpoint := {| _pyodideReady := Some (Fulfilled tt);
                                _output := None; loads := [([], None)];
                                calls := [] |} |}
              tt eq_refl eq_refl eq_refl) as (_ & Hv & _).
  split; [reflexivity |]. exact (Hv (VNumber 7) eq_refl).
Defined.

Lemma client_setOutput_reaches_worker_witness :
  let parse := fun v : Value => Ok v in
  let ops := [InitializePyodide None; InWorker 0 (LoadSettles (Ok tt))] in
  let W := (run parse ops initial).1 in
  let c := {| terminated := false;
              endpoint := {| _pyodideReady := Some (Fulfilled tt);
                             _output := None; loads := [([], None)];
                             calls := [] |} |} in
  _worker W = Some 0 /\ workers W !! 0 = Some c /\
  (setOutput (Some 1) W).2 = Ok tt /\
  (calls ∘ endpoint <$>
     workers (in_worker 0 (Writes Stdout "hi") (setOutput (Some 1) W).1) !! 0) =
    Some [(1, "hi")].
Proof.
  intros parse ops W c.
  destruct (client_setOutput_reaches_worker parse ops (Some 1) Stdout "hi" 0 c
              eq_refl eq_refl) as (Hok & _).
  split; [reflexivity |]. split; [reflexivity |]. split; [exact Hok | reflexivity].
Defined.

Lemma sink_configured_init_is_refused_witness :
  let o := Some {| stdout := Some 0; stderr := None |} in
  let W1 := (initializeWorker (Some ["numpy"]) o initial).1 in
  _worker initial = None /\ cloneable o = false /\
  settle W1 (initializeWorker (Some ["numpy"]) o initial).2 =
    Rejected data_clone_error /\
  workers W1 = [{| terminated := false; endpoint := Worker.initial |}] /\
  settle W1 (initializeWorker None None W1).2 = Fulfilled (Facade 1).
Proof.
  intros o W1.
  destruct (sink_configured_init_is_refused (Some ["numpy"]) o initial
              eq_refl eq_refl) as (H1 & _ & _ & H2 & H3).
  split; [reflexivity |]. split; [reflexivity |].
  split; [exact (H1 W1) |]. split; [exact H2 |].
  exact (proj2 (H3 None None W1)).
Defined.

Lemma setOutput_last_write_wins_witness :
  let parse := fun v : Value => Ok v in
  let boom := {| written := [(Stderr, "e")];
                 outcome := Throw (ErrorObject "PythonError" "boom") |} in
  let ops0 := [InitializePyodide None; InWorker 0 (LoadSettles (Ok tt));
               SetOutput (Some 1); InWorker 0 (Writes Stdout "old")] in
  let ops := [InWorker 0 (Writes Stdout "a"); RunPython "x" None boom;
              Terminate; InitializeWorker None None;
              InWorker 1 (LoadSettles (Ok tt)); InWorker 1 (Writes Stdout "b");
              InWorker 0 (Writes Stdout "late")] in
  let W0 := (run parse ops0 initial).1 in
  let W2 := (run parse ops (setOutput (Some 2) W0).1).1 in
  _runner W0 = Some 0 /\
  forallb (fun op => negb (sets_sink op)) ops = true /\
  (setOutput (Some 2) W0).2 = Ok tt /\
  (calls ∘ endpoint <$> workers W2) =
    [[(1, "old"); (2, "a"); (2, "e"); (2, "boom")]; []] /\
  forall v c2, workers W2 !! v = Some c2 ->
    exists ds,
      calls (endpoint c2) =
        default [] (calls ∘ endpoint <$> workers (setOutput (Some 2) W0).1 !! v) ++ ds /\
      forall msg, (1, msg) ∉ ds.
Proof.
  intros parse boom ops0 ops W0 W2.
  destruct (setOutput_last_write_wins parse ops0 ops (Some 2) 0 eq_refl eq_refl)
    as (Hok & _ & Hall).
  split; [reflexivity |]. split; [reflexivity |]. split; [exact Hok |].
  split; [reflexivity |].
  intros v c2 Hc2. destruct (Hall v c2 Hc2) as (ds & Hcs & _ & Hold & _).
  exists ds. split; [exact Hcs |]. intros msg. apply Hold. discriminate.
Defined.

Lemma terminate_while_loading_hangs_witness :
  let parse := fun v : Value => Ok v in
  let ops1 := [InitializePyodide None; GetPyodide None] in
  let ops2 := [InWorker 0 (LoadSettles (Ok tt)); InitializePyodide None;
               InitializeWorker None None; InWorker 1 (LoadSettles (Ok tt))] in
  let p := AsyncReturn 1 (InitializeWorkerCall 2 (Remote 0)) in
  let W1 := (run parse ops1 initial).1 in
  let W2 := (run parse ops2 (terminate W1)).1 in
  coordinated ops1 = true /\ pyodide W1 = Some p /\ settle W1 p = Pending /\
  settle W2 p = Pending /\
  Forall (fun r => settle W2 r = Pending) [AsyncReturn 0 p; AsyncReturn 3 p].
Proof.
  intros parse ops1 ops2 p W1 W2.
  destruct (terminate_while_loading_hangs parse ops1 ops2 p eq_refl eq_refl eq_refl)
    as [H1 H2].
  split; [reflexivity |]. split; [reflexivity |]. split; [reflexivity |].
  split; [exact H1 | exact H2].
Defined.

End MoreRuns.
